(** * Segmentation and classification engine of chatbot-rag-pipeline

    Shallow embedding of
      - [src/data_processing/text_processor.py] ([TextChunk], [TextProcessor]),
      - [src/data_extraction/extractors/base_extractor.py] ([clean_text],
        [classify_domain]),
      - [src/data_extraction/extractors/service_public.py]
        ([classify_fiche_domain]),
      - [src/embeddings/generator.py] ([EmbeddingsGenerator]),
    and the properties of the chunk assembler, the document pipeline and the
    keyword classifiers.

    Python values are modelled as follows.
      - [str]: a list of Unicode code points ([N]); [len] is the list length.
      - [int]: [Z]; [int(a / 10)] goes through a float, as in Python.
      - an exception: a result of type [option], [None] when the call
        raises.
      - [dict] with string keys: [gmap (list N) pyval]; a dict whose iteration
        order is observed (the keyword tables) is an association list.
      - the Unicode database ([str.lower], the regex classes [\w] and [\d])
        is an interface, [UnicodeDB]; every theorem holds for all its
        instances, and [Latin1] is the instance the examples run on. *)

From Stdlib Require Import ZArith NArith List Bool Lia String Ascii.
From stdpp Require Import base gmap list fin_maps.

Local Open Scope Z_scope.
Local Open Scope list_scope.

(** ** Python strings *)

Module PyStr.

Abbreviation char := N (only parsing).
Abbreviation str := (list N) (only parsing).

Definition len {A} (l : list A) : Z := Z.of_nat (length l).

(** UTF-8 decoding, used only to write the source's string literals. *)
Fixpoint utf8_decode (bs : list N) : str :=
  match bs with
  | [] => []
  | b0 :: r0 =>
      if (b0 <? 128)%N then b0 :: utf8_decode r0
      else if (b0 <? 224)%N then
        match r0 with
        | b1 :: r1 => ((b0 mod 32) * 64 + b1 mod 64)%N :: utf8_decode r1
        | _ => []
        end
      else if (b0 <? 240)%N then
        match r0 with
        | b1 :: b2 :: r2 =>
            ((b0 mod 16) * 4096 + (b1 mod 64) * 64 + b2 mod 64)%N
              :: utf8_decode r2
        | _ => []
        end
      else
        match r0 with
        | b1 :: b2 :: b3 :: r3 =>
            ((b0 mod 8) * 262144 + (b1 mod 64) * 4096
             + (b2 mod 64) * 64 + b3 mod 64)%N :: utf8_decode r3
        | _ => []
        end
  end.

Fixpoint bytes_of_string (s : string) : list N :=
  match s with
  | EmptyString => []
  | String a s' => N_of_ascii a :: bytes_of_string s'
  end.

(** [u "..."] is the Python literal ['...']. *)
Definition u (s : string) : str := utf8_decode (bytes_of_string s).

Definition SPACE : N := 32%N.

(** [str.isspace] on one code point; also the regex class [\s] of a [str]
    pattern. *)
Definition isspace (c : N) : bool :=
  ((9 <=? c) && (c <=? 13) || (28 <=? c) && (c <=? 32)
   || (c =? 133) || (c =? 160) || (c =? 5760)
   || (8192 <=? c) && (c <=? 8202)
   || (c =? 8232) || (c =? 8233) || (c =? 8239) || (c =? 8287)
   || (c =? 12288))%N.

(** [bool(s)] *)
Definition truthy {A} (s : list A) : bool :=
  match s with [] => false | _ => true end.

Fixpoint lstrip (s : str) : str :=
  match s with
  | [] => []
  | c :: s' => if isspace c then lstrip s' else s
  end.

Definition rstrip (s : str) : str := rev (lstrip (rev s)).

(** [s.strip()] *)
Definition strip (s : str) : str := rstrip (lstrip s).

(** [s.split()]: the maximal runs of non-whitespace characters, in order.
    [w] is the word being read, reversed. *)
Fixpoint split_aux (w : str) (s : str) : list str :=
  match s with
  | [] => match w with [] => [] | _ => [rev w] end
  | c :: s' =>
      if isspace c
      then match w with [] => split_aux [] s' | _ => rev w :: split_aux [] s' end
      else split_aux (c :: w) s'
  end.

Definition split (s : str) : list str := split_aux [] s.

(** [sep.join(ws)] *)
Fixpoint join (sep : str) (ws : list str) : str :=
  match ws with
  | [] => []
  | [w] => w
  | w :: ws' => w ++ sep ++ join sep ws'
  end.

Fixpoint is_prefix (p s : str) : bool :=
  match p, s with
  | [], _ => true
  | _ :: _, [] => false
  | a :: p', b :: s' => (a =? b)%N && is_prefix p' s'
  end.

(** [k in s] *)
Fixpoint contains (k s : str) : bool :=
  is_prefix k s || match s with [] => false | _ :: s' => contains k s' end.

(** [s.count(c)] for a one-character [c] *)
Definition count_char (c : N) (s : str) : Z :=
  len (List.filter (fun x => (x =? c)%N) s).

(** [l[start:]] for a Python list and any integer [start] *)
Definition slice_from {A} (start : Z) (l : list A) : list A :=
  let n := len l in
  let s := if start <? 0 then Z.max (start + n) 0 else Z.min start n in
  drop (Z.to_nat s) l.

(** [s[:n]] for [n >= 0] *)
Definition slice_to {A} (n : nat) (l : list A) : list A := take n l.

(** [s.replace(old, new)]: the non-overlapping occurrences of [old], from the
    left. [skip] counts the characters of an occurrence still to be dropped. *)
Fixpoint replace_aux (old new : str) (skip : nat) (s : str) : str :=
  match s with
  | [] => []
  | c :: s' =>
      match skip with
      | S k => replace_aux old new k s'
      | O =>
          if is_prefix old s
          then new ++ replace_aux old new (length old - 1) s'
          else c :: replace_aux old new 0 s'
      end
  end.

Definition replace (old new s : str) : str :=
  match old with
  | [] => new ++ concat (List.map (fun c => c :: new) s)
  | _ => replace_aux old new 0 s
  end.

End PyStr.
Export PyStr.

(** ** The regular expressions of the program

    A backtracking matcher in the order of Python's [re]: [mt r prev s] lists
    the ways [r] matches a prefix of [s], as (matched text, rest), the match
    Python's engine finds first at the head. [prev] is the character before
    the position, which the word boundary reads. *)

Module Re.

Inductive regex : Type :=
| Eps
| Cls (p : N -> bool)                        (* a character class *)
| Seq (r1 r2 : regex)
| Alt (r1 r2 : regex)
| Rep (r : regex) (lo : nat) (hi : option nat) (* greedy r{lo,hi} *)
| WordB (w : N -> bool).                     (* \b for the word class w *)

Definition Chr (c : N) : regex := Cls (N.eqb c).

Fixpoint Lit (s : str) : regex :=
  match s with
  | [] => Eps
  | [c] => Chr c
  | c :: s' => Seq (Chr c) (Lit s')
  end.

Definition Plus (r : regex) : regex := Rep r 1 None.
Definition Star (r : regex) : regex := Rep r 0 None.

Definition OneOf (cs : str) : regex := Cls (fun c => existsb (N.eqb c) cs).

Definition last_of (prev : option N) (m : str) : option N :=
  match last m with Some c => Some c | None => prev end.

Definition is_word (w : N -> bool) (c : option N) : bool :=
  match c with Some x => w x | None => false end.

Definition glue (m1 : str) (m2 : str * str) : str * str := (m1 ++ m2.1, m2.2).

Fixpoint mt (r : regex) (prev : option N) (s : str) : list (str * str) :=
  match r with
  | Eps => [([], s)]
  | Cls p =>
      match s with
      | c :: s' => if p c then [([c], s')] else []
      | [] => []
      end
  | Seq r1 r2 =>
      flat_map (fun m1 => List.map (glue m1.1) (mt r2 (last_of prev m1.1) m1.2))
               (mt r1 prev s)
  | Alt r1 r2 => mt r1 prev s ++ mt r2 prev s
  | Rep r' lo hi =>
      (fix rep (fuel lo : nat) (hi : option nat) (prev : option N) (s : str)
         {struct fuel} : list (str * str) :=
         let stop := match lo with O => [([], s)] | S _ => [] end in
         match fuel, hi with
         | O, _ | _, Some O => stop
         | S fuel', _ =>
             flat_map
               (fun m1 =>
                  match m1.1 with
                  | [] => []
                  | _ => List.map (glue m1.1)
                           (rep fuel' (Nat.pred lo) (Nat.pred <$> hi)
                                (last_of prev m1.1) m1.2)
                  end)
               (mt r' prev s) ++ stop
         end) (S (length s)) lo hi prev s
  | WordB w =>
      if xorb (is_word w prev) (is_word w (head s)) then [([], s)] else []
  end.

(** [bool(re.search(r, s))] *)
Fixpoint search (r : regex) (prev : option N) (s : str) : bool :=
  match mt r prev s with
  | _ :: _ => true
  | [] => match s with [] => false | c :: s' => search r (Some c) s' end
  end.

(** [re.sub(r, repl, s)], the replacement given as a function of the matched
    text. [skip] counts the characters of the current match still to be
    passed. None of the program's patterns matches the empty string, and an
    empty match is treated as no match. *)
Fixpoint sub_aux (r : regex) (repl : str -> str) (skip : nat)
    (prev : option N) (s : str) : str :=
  match s with
  | [] => []
  | c :: s' =>
      match skip with
      | S k => sub_aux r repl k (Some c) s'
      | O =>
          match mt r prev s with
          | ((_ :: _) as m, _) :: _ =>
              repl m ++ sub_aux r repl (length m - 1) (Some c) s'
          | _ => c :: sub_aux r repl 0 (Some c) s'
          end
      end
  end.

Definition sub (r : regex) (repl : str -> str) (s : str) : str :=
  sub_aux r repl 0 None s.

(** [re.split(r, s)] for a pattern without groups; [piece] is the piece being
    read, reversed. *)
Fixpoint split_aux (r : regex) (skip : nat) (piece : str)
    (prev : option N) (s : str) : list str :=
  match s with
  | [] => [rev piece]
  | c :: s' =>
      match skip with
      | S k => split_aux r k piece (Some c) s'
      | O =>
          match mt r prev s with
          | ((_ :: _) as m, _) :: _ =>
              rev piece :: split_aux r (length m - 1) [] (Some c) s'
          | _ => split_aux r 0 (c :: piece) (Some c) s'
          end
      end
  end.

Definition split (r : regex) (s : str) : list str := split_aux r 0 [] None s.

End Re.

(** ** Division of integers through a float *)

(** The integer nearest to [a/b] for [0 <= a] and [0 < b], the even one when
    two are equally near. *)
Definition round_half_even (a b : Z) : Z :=
  let q := a / b in
  let r := a mod b in
  if 2 * r <? b then q
  else if b <? 2 * r then q + 1
  else if Z.even q then q else q + 1.

(** [int(a / 10)] for an integer [a >= 0]. The division [a / 10] gives the
    binary64 float nearest to the quotient, with a mantissa of 53 bits, ties
    to even, and raises [OverflowError] when that is 2^1024 or more; [int]
    then drops the fractional part. [None] is the [OverflowError]. *)
Definition int_tenth_nonneg (a : Z) : option Z :=
  let q := a / 10 in
  if q =? 0 then Some 0
  else
    let e := Z.log2 q - 52 in
    if e >=? 0
    then
      let m := round_half_even a (10 * 2 ^ e) in
      if m * 2 ^ e >=? 2 ^ 1024 then None else Some (m * 2 ^ e)
    else Some (round_half_even (a * 2 ^ (- e)) 10 / 2 ^ (- e)).

(** [int(a / 10)] for any integer [a]: the rounding is symmetric and [int]
    rounds towards zero. *)
Definition int_tenth (a : Z) : option Z :=
  if a <? 0
  then match int_tenth_nonneg (- a) with Some k => Some (- k) | None => None end
  else int_tenth_nonneg a.

(** ** The Unicode database *)

Class UnicodeDB : Type := {
  lower : str -> str;        (* str.lower *)
  isalnum : N -> bool;       (* str.isalnum on one code point *)
  isdecimal : N -> bool      (* general category Nd *)
}.

(** The regex classes [\w] and [\d] of a [str] pattern. *)
Definition re_w `{UnicodeDB} (c : N) : bool := isalnum c || (c =? 95)%N.
Definition re_d `{UnicodeDB} (c : N) : bool := isdecimal c.

(** The database restricted to Basic Latin and Latin-1 Supplement; code
    points from 256 on are taken as caseless and not alphanumeric. *)
Module Latin1.

Definition lower_char (c : N) : N :=
  (if (65 <=? c) && (c <=? 90) then c + 32
   else if (192 <=? c) && (c <=? 222) && negb (c =? 215) then c + 32
   else c)%N.

Definition alnum (c : N) : bool :=
  ((48 <=? c) && (c <=? 57) || (65 <=? c) && (c <=? 90)
   || (97 <=? c) && (c <=? 122)
   || (c =? 170) || (c =? 178) || (c =? 179) || (c =? 181) || (c =? 185)
   || (c =? 186) || (188 <=? c) && (c <=? 190)
   || (192 <=? c) && (c <=? 255) && negb (c =? 215) && negb (c =? 247))%N.

Definition decimal (c : N) : bool := ((48 <=? c) && (c <=? 57))%N.

#[export] Instance db : UnicodeDB :=
  {| lower := List.map lower_char; isalnum := alnum; isdecimal := decimal |}.

End Latin1.

(** ** Data model *)

(** The values stored in chunk metadata. *)
Inductive pyval : Type :=
| PyNone
| PyBool (b : bool)
| PyInt (z : Z)
| PyStr (s : list N).

Abbreviation dict := (gmap (list N) pyval) (only parsing).

(** [d.update(other)]: the keys of [other] are written over [d]. *)
Definition dict_update (d other : dict) : dict := other ∪ d.

(** [@dataclass TextChunk] *)
Record TextChunk : Type := mkTextChunk {
  text : list N;
  chunk_index : Z;
  word_count : Z;
  char_count : Z;
  chunk_type : list N;
  keywords : list (list N);
  metadata : gmap (list N) pyval
}.

(** The constructor call [TextChunk(...)], [__post_init__] included. *)
Definition TextChunk_new (text : str) (chunk_index word_count char_count : Z)
    (chunk_type : str) (keywords : list str) (metadata : dict) : TextChunk :=
  {| text := text;
     chunk_index := chunk_index;
     word_count := if word_count =? 0 then len (split text) else word_count;
     char_count := if char_count =? 0 then len text else char_count;
     chunk_type := chunk_type;
     keywords := keywords;
     metadata := metadata |}.

(** What the methods write to the logger. *)
Inductive log_event : Type :=
| SpacyLoaded                       (* info *)
| SpacyUnavailable                  (* warning *)
| SpacyInstallHint                  (* info *)
| ProcessingDocument (title50 : list N)  (* info *)
| DocumentTooShort (n : Z)          (* warning *)
| NoSentenceDetected                (* warning *)
| DocumentProcessed (n : Z)         (* info *)
| Distribution (types : list (list N)). (* info *)

(** The attributes of a [TextProcessor]. [nlp] is the spaCy pipeline when it
    loaded, as the function from a text to the texts of its [doc.sents];
    [use_spacy] is set with it in [__init__] and never again. [log] holds
    what was written to [self.logger]. *)
Record TextProcessor : Type := mkTextProcessor {
  chunk_size : Z;
  overlap : Z;
  min_chunk_size : Z;
  section_patterns : list (list N);
  chunk_keywords : list (list N * list (list N));
  nlp : option (list N -> list (list N));
  log : list log_event
}.

Definition use_spacy (self : TextProcessor) : bool :=
  match nlp self with Some _ => true | None => false end.

(** [TextProcessor.__init__]; [spacy_model] is the result of
    [spacy.load("fr_core_news_sm")], [None] when it raises [OSError]. *)
Definition TextProcessor_init (chunk_size overlap : Z)
    (spacy_model : option (str -> list str)) : TextProcessor :=
  {| chunk_size := chunk_size;
     overlap := overlap;
     min_chunk_size := 100;
     section_patterns :=
       [ u "^[A-Z][^.]*:$"; u "^\d+\.\s+[A-Z]"; u "^[A-Z]{2,}"; u "^\s*-\s+[A-Z]";
         u "Article\s+\d+"; u "Chapitre\s+[IVX]+" ];
     chunk_keywords :=
       [ (u "procedure",
          [u "démarche"; u "procédure"; u "étape"; u "comment"; u "mode d'emploi"]);
         (u "definition",
          [u "définition"; u "qu'est-ce"; u "signifie"; u "correspond"]);
         (u "obligation",
          [u "obligation"; u "devoir"; u "doit"; u "tenu de"; u "obligatoire"]);
         (u "droit",
          [u "droit"; u "peut"; u "autorisé"; u "possibilité"; u "faculté"]);
         (u "sanction",
          [u "sanction"; u "amende"; u "pénalité"; u "infraction"; u "contravention"]);
         (u "aide",
          [u "aide"; u "subvention"; u "allocation"; u "financement"; u "soutien"]) ];
     nlp := spacy_model;
     log := match spacy_model with
            | Some _ => [SpacyLoaded]
            | None => [SpacyUnavailable; SpacyInstallHint]
            end |}.

(** ** The methods of [TextProcessor] *)

Section Methods.

Context `{UnicodeDB}.

Definition ws : Re.regex := Re.Cls isspace.
Definition punct : Re.regex := Re.OneOf (u ",.!?;:").
Definition digit : Re.regex := Re.Cls re_d.

(** The text of group 1 when it is the last, resp. the first, character of
    the match. *)
Definition last_char (m : str) : str :=
  match last m with Some c => [c] | None => [] end.
Definition first_char (m : str) : str :=
  match m with c :: _ => [c] | [] => [] end.

(** [clean_text] *)
Definition clean_text (text : str) : str :=
  if negb (truthy text) then []
  else
    let text := Re.sub (Re.Plus ws) (fun _ => u " ") text in
    let text := Re.sub (Re.Seq (Re.Chr 10) (Re.Seq (Re.Star ws) (Re.Chr 10)))
                    (fun _ => [10; 10]%N) text in
    let text := replace [160%N] (u " ") text in
    let text := replace [8217%N] (u "'") text in
    let text := replace [8211%N] (u "-") text in
    let text := replace [8212%N] (u "-") text in
    let text := Re.sub (Re.Seq (Re.Plus ws) punct) last_char text in
    let text := Re.sub (Re.Seq punct (Re.Star ws)) (fun m => first_char m ++ u " ") text in
    strip text.

(** The pattern [\b(M|Mme|Dr|etc|cf|ex|art|vol|n°)\.\s]. *)
Definition abbrev_re : Re.regex :=
  Re.Seq (Re.WordB re_w)
      (Re.Seq (Re.Alt (Re.Lit (u "M")) (Re.Alt (Re.Lit (u "Mme")) (Re.Alt (Re.Lit (u "Dr"))
           (Re.Alt (Re.Lit (u "etc")) (Re.Alt (Re.Lit (u "cf")) (Re.Alt (Re.Lit (u "ex"))
           (Re.Alt (Re.Lit (u "art")) (Re.Alt (Re.Lit (u "vol")) (Re.Lit (u "n°"))))))))))
           (Re.Seq (Re.Chr 46) ws)).

(** Its replacement [\1<!ABBREV!> ]: group 1 is the match without its last
    two characters. *)
Definition abbrev_repl (m : str) : str :=
  take (length m - 2) m ++ u "<!ABBREV!> ".

(** [smart_split_sentences]; [self.use_spacy] holds when [nlp] is there. *)
Definition smart_split_sentences (self : TextProcessor) (text : str) : list str :=
  match nlp self with
  | Some sents =>
      List.map strip (List.filter (fun s => truthy (strip s)) (sents text))
  | None =>
      let text := Re.sub abbrev_re abbrev_repl text in
      let sentences := Re.split (Re.Seq (Re.Plus (Re.OneOf (u ".!?"))) (Re.Plus ws)) text in
      List.map (fun s => strip (replace (u "<!ABBREV!>") (u ".") s))
               (List.filter (fun s => truthy (strip s)) sentences)
  end.

(** [classify_chunk_content] *)
Definition classify_chunk_content (self : TextProcessor) (text : str) : list str :=
  let text_lower := lower text in
  let detected_categories :=
    List.map fst
      (List.filter (fun ck => existsb (fun keyword => contains keyword text_lower) ck.2)
                   (chunk_keywords self)) in
  if truthy detected_categories then detected_categories else [u "general"].

(** The pattern [\d{1,2}[/-]\d{1,2}[/-]\d{2,4}]. *)
Definition date_re : Re.regex :=
  Re.Seq (Re.Rep digit 1 (Some 2%nat))
      (Re.Seq (Re.OneOf (u "/-"))
           (Re.Seq (Re.Rep digit 1 (Some 2%nat))
                (Re.Seq (Re.OneOf (u "/-")) (Re.Rep digit 2 (Some 4%nat))))).

Definition sentence_count (t : str) : Z :=
  count_char 46 t + count_char 33 t + count_char 63 t.

(** The metadata literal of a chunk closed inside the loop. *)
Definition loop_metadata (chunk_text : str) : dict :=
  <[u "sentence_count" := PyInt (sentence_count chunk_text)]>
  (<[u "has_numbers" := PyBool (Re.search digit None chunk_text)]>
  (<[u "has_dates" := PyBool (Re.search date_re None chunk_text)]>
  (<[u "complexity" :=
       PyStr (if len (split chunk_text) >? 50 then u "high" else u "normal")]> ∅))).

(** The metadata literal of the last chunk. *)
Definition final_metadata (final_chunk_text : str) : dict :=
  <[u "sentence_count" := PyInt (sentence_count final_chunk_text)]>
  (<[u "is_final" := PyBool true]> ∅).

(** The local variables of [create_chunks_with_overlap]. *)
Record asm_state : Type := mkAsm {
  chunks : list TextChunk;
  current_chunk : list N;
  next_index : Z;
  overlap_buffer : list N
}.

Definition asm_init : asm_state :=
  {| chunks := []; current_chunk := []; next_index := 0; overlap_buffer := [] |}.

(** The overlap prepared for the next chunk. [int(self.overlap/10)] goes
    through a float: [None] is the [OverflowError] that the division raises
    when [overlap] is beyond the range of the floats. *)
Definition next_overlap (self : TextProcessor) (current_chunk : str)
  : option str :=
  let words := split current_chunk in
  if len words >? 10
  then
    match int_tenth (overlap self) with
    | Some k => Some (join (u " ") (slice_from (- k) words))
    | None => None
    end
  else Some current_chunk.

(** One iteration of the loop over the sentences; [None] when it raises. *)
Definition asm_step (self : TextProcessor) (st : asm_state) (sentence : str)
  : option asm_state :=
  let potential_chunk :=
    if truthy (current_chunk st)
    then current_chunk st ++ u " " ++ sentence else sentence in
  if (len potential_chunk >? chunk_size self) && truthy (current_chunk st)
  then
    let chunk_text := strip (overlap_buffer st ++ u " " ++ current_chunk st) in
    let emit := len chunk_text >=? min_chunk_size self in
    match next_overlap self (current_chunk st) with
    | Some overlap_buffer' =>
        Some {| chunks :=
                  if emit
                  then chunks st ++
                       [TextChunk_new chunk_text (next_index st)
                          (len (split chunk_text)) (len chunk_text) (u "content")
                          (classify_chunk_content self chunk_text)
                          (loop_metadata chunk_text)]
                  else chunks st;
                current_chunk := sentence;
                next_index := if emit then next_index st + 1 else next_index st;
                overlap_buffer := overlap_buffer' |}
    | None => None
    end
  else
    Some {| chunks := chunks st;
            current_chunk := potential_chunk;
            next_index := next_index st;
            overlap_buffer := overlap_buffer st |}.

(** The loop from the state [st] on: an iteration that raises ends it. *)
Fixpoint asm_run (self : TextProcessor) (sentences : list str) (st : asm_state)
  : option asm_state :=
  match sentences with
  | [] => Some st
  | sentence :: sentences' =>
      match asm_step self st sentence with
      | Some st' => asm_run self sentences' st'
      | None => None
      end
  end.

Definition asm_loop (self : TextProcessor) (sentences : list str)
  : option asm_state :=
  asm_run self sentences asm_init.

(** The last chunk, when the code after the loop appends one. *)
Definition final_chunk (self : TextProcessor) (st : asm_state) : option TextChunk :=
  if truthy (current_chunk st) && (len (current_chunk st) >=? min_chunk_size self)
  then
    let final_chunk_text := strip (overlap_buffer st ++ u " " ++ current_chunk st) in
    Some (TextChunk_new final_chunk_text (next_index st)
            (len (split final_chunk_text)) (len final_chunk_text) (u "content")
            (classify_chunk_content self final_chunk_text)
            (final_metadata final_chunk_text))
  else None.

(** The list returned once the loop has ended in the state [st]. *)
Definition assembled (self : TextProcessor) (st : asm_state) : list TextChunk :=
  match final_chunk self st with
  | Some chunk => chunks st ++ [chunk]
  | None => chunks st
  end.

(** [create_chunks_with_overlap]; [None] when it raises. *)
Definition create_chunks_with_overlap (self : TextProcessor)
    (sentences : list str) : option (list TextChunk) :=
  match asm_loop self sentences with
  | Some st => Some (assembled self st)
  | None => None
  end.

(** The title chunk of [process_document]. *)
Definition title_chunk (title : str) (metadata : dict) : TextChunk :=
  TextChunk_new (strip title) 0 (len (split title)) (len title) (u "title")
    [u "titre"] (<[u "is_title" := PyBool true]> metadata).

(** The loop of [process_document] over the content chunks. *)
Definition adjust (doc_metadata : dict) (shift : Z) (chunk : TextChunk)
  : TextChunk :=
  {| text := text chunk;
     chunk_index := chunk_index chunk + shift;
     word_count := word_count chunk;
     char_count := char_count chunk;
     chunk_type := chunk_type chunk;
     keywords := keywords chunk;
     metadata := dict_update (metadata chunk) doc_metadata |}.

(** [process_document]: the records it logs and the list it returns, [None]
    when [create_chunks_with_overlap] raises. *)
Definition process_document_run (self : TextProcessor) (title content : str)
    (metadata : option dict) : list log_event * option (list TextChunk) :=
  let metadata := match metadata with Some m => m | None => ∅ end in
  let log0 := [ProcessingDocument (slice_to 50 title)] in
  let clean_content := clean_text content in
  if len clean_content <? min_chunk_size self
  then (log0 ++ [DocumentTooShort (len clean_content)], Some [])
  else
    let chunks0 :=
      if truthy title && (len (strip title) >? 10)
      then [title_chunk title metadata] else [] in
    let sentences := smart_split_sentences self clean_content in
    if negb (truthy sentences)
    then (log0 ++ [NoSentenceDetected], Some chunks0)
    else
      match create_chunks_with_overlap self sentences with
      | Some created =>
          let content_chunks := List.map (adjust metadata (len chunks0)) created in
          let chunks1 := chunks0 ++ content_chunks in
          (log0 ++ [DocumentProcessed (len chunks1);
                    Distribution (List.map chunk_type chunks1)],
           Some chunks1)
      | None => (log0, None)
      end.

Definition process_document (self : TextProcessor) (title content : str)
    (metadata : option dict) : option (list TextChunk) :=
  (process_document_run self title content metadata).2.

End Methods.

(** The effect of a method call on the processor object. Only [__init__]
    assigns attributes of [self]; [process_document] writes to the logger;
    the other methods, [detect_sections] and [get_processing_stats] among
    them, read their arguments and [self] and write nothing. *)
Inductive method_call : Type :=
| CallCleanText (text : list N)
| CallDetectSections (text : list N)
| CallSmartSplitSentences (text : list N)
| CallClassifyChunkContent (text : list N)
| CallCreateChunksWithOverlap (sentences : list (list N))
| CallProcessDocument (title content : list N)
                      (metadata : option (gmap (list N) pyval))
| CallGetProcessingStats (chunks : list TextChunk).

Definition with_log (self : TextProcessor) (l : list log_event) : TextProcessor :=
  {| chunk_size := chunk_size self;
     overlap := overlap self;
     min_chunk_size := min_chunk_size self;
     section_patterns := section_patterns self;
     chunk_keywords := chunk_keywords self;
     nlp := nlp self;
     log := l |}.

Definition call `{UnicodeDB} (self : TextProcessor) (m : method_call)
  : TextProcessor :=
  match m with
  | CallProcessDocument title content metadata =>
      with_log self
        (log self ++ (process_document_run self title content metadata).1)
  | _ => self
  end.

Definition calls `{UnicodeDB} (self : TextProcessor) (ms : list method_call)
  : TextProcessor :=
  fold_left call ms self.

(** ** [BaseExtractor.classify_domain] *)

Module BaseExtractor.

Section ClassifyDomain.

Context `{UnicodeDB}.

(** The local table [keywords]. *)
Definition keywords : list (str * list str) :=
  [ (u "juridique",
     [u "droit"; u "loi"; u "code"; u "juridique"; u "tribunal"; u "justice";
      u "contrat"; u "responsabilité"]);
    (u "rh",
     [u "salarié"; u "emploi"; u "recrutement"; u "formation"; u "rh";
      u "ressources humaines"; u "travail"]);
    (u "economique",
     [u "économie"; u "finance"; u "aide"; u "subvention"; u "crédit";
      u "impôt"; u "fiscal"]) ].

(** [max(xs, key=key)]: the first element whose key no other exceeds;
    [None] stands for the [ValueError] of an empty argument. *)
Fixpoint max_from {A} (key : A -> Z) (best : A) (xs : list A) : A :=
  match xs with
  | [] => best
  | x :: xs' => max_from key (if key x >? key best then x else best) xs'
  end.

Definition py_max {A} (key : A -> Z) (xs : list A) : option A :=
  match xs with
  | [] => None
  | x :: xs' => Some (max_from key x xs')
  end.

(** [d.get(k)] on a dict of scores; a missing key gives [None]. *)
Fixpoint get (d : list (str * Z)) (k : str) : option Z :=
  match d with
  | [] => None
  | (k', v) :: d' => if decide (k' = k) then Some v else get d' k
  end.

Definition text_to_analyze (title content : str) : str :=
  lower (title ++ u " " ++ slice_to 500 content).

Definition domain_scores (title content : str) : list (str * Z) :=
  List.map
    (fun dw => (dw.1, len (List.filter
                             (fun word => contains word (text_to_analyze title content))
                             dw.2)))
    keywords.

(** [classify_domain]; [None] is an exception raised by [max]. *)
Definition classify_domain (title content url : str) : option str :=
  let scores := domain_scores title content in
  match py_max (fun v => v) (List.map snd scores) with
  | None => None
  | Some best =>
      if best >? 0
      then py_max (fun d => default 0 (get scores d)) (List.map fst scores)
      else Some (u "autre")
  end.

End ClassifyDomain.

End BaseExtractor.

(** ** The other methods of [TextProcessor] *)

Module PyStrMore.

(** [s.split(sep)] for a one-character [sep]: the pieces between the
    occurrences of [sep], the empty ones included. [piece] is the piece
    being read, reversed. *)
Fixpoint split_on_aux (sep : N) (piece s : str) : list str :=
  match s with
  | [] => [rev piece]
  | c :: s' =>
      if (c =? sep)%N then rev piece :: split_on_aux sep [] s'
      else split_on_aux sep (c :: piece) s'
  end.

Definition split_on (sep : N) (s : str) : list str := split_on_aux sep [] s.

(** [s.endswith(c)] for a one-character [c] *)
Definition endswith_char (c : N) (s : str) : bool :=
  match last s with Some d => (d =? c)%N | None => false end.

(** [s.rfind(c)] for a one-character [c]: the index of its last occurrence,
    or -1. [i] is the index of the head of [s]. *)
Fixpoint rfind_from (c : N) (i : Z) (s : str) : Z :=
  match s with
  | [] => -1
  | x :: s' =>
      let later := rfind_from c (i + 1) s' in
      if later >=? 0 then later else if (x =? c)%N then i else -1
  end.

Definition rfind (c : N) (s : str) : Z := rfind_from c 0 s.

(** [enumerate(l)], counting from [i] *)
Fixpoint enumerate_from {A} (i : Z) (l : list A) : list (Z * A) :=
  match l with
  | [] => []
  | x :: l' => (i, x) :: enumerate_from (i + 1) l'
  end.

(** [sum(l)] *)
Definition sum (l : list Z) : Z := fold_left Z.add l 0.

(** [bool(re.match(r, s))], and the same for the pattern [r$]: [$] holds at
    the end of the text and before a newline that ends it. *)
Definition re_match (r : Re.regex) (s : str) : bool := truthy (Re.mt r None s).

Definition at_end (rest : str) : bool :=
  match rest with
  | [] => true
  | [c] => (c =? 10)%N
  | _ => false
  end.

Definition re_match_eol (r : Re.regex) (s : str) : bool :=
  existsb (fun m => at_end m.2) (Re.mt r None s).

End PyStrMore.
Export PyStrMore.

Section MoreMethods.

Context `{UnicodeDB}.

Definition upper : Re.regex := Re.Cls (fun c => (65 <=? c) && (c <=? 90))%N.

(** The patterns of [self.section_patterns] as [__init__] sets them, in
    order, each as the test [re.match(pattern, line)]. A leading [^] holds
    at the start of the text, where [re.match] tries the pattern. *)
Definition section_matchers : list (str -> bool) :=
  [ (* ^[A-Z][^.]*:$ *)
    re_match_eol
      (Re.Seq upper (Re.Seq (Re.Star (Re.Cls (fun c => negb (c =? 46)%N)))
                            (Re.Chr 58)));
    (* ^\d+\.\s+[A-Z] *)
    re_match (Re.Seq (Re.Plus digit)
                     (Re.Seq (Re.Chr 46) (Re.Seq (Re.Plus ws) upper)));
    (* ^[A-Z]{2,} *)
    re_match (Re.Rep upper 2 None);
    (* ^\s*-\s+[A-Z] *)
    re_match (Re.Seq (Re.Star ws)
                     (Re.Seq (Re.Chr 45) (Re.Seq (Re.Plus ws) upper)));
    (* Article\s+\d+ *)
    re_match (Re.Seq (Re.Lit (u "Article")) (Re.Seq (Re.Plus ws) (Re.Plus digit)));
    (* Chapitre\s+[IVX]+ *)
    re_match (Re.Seq (Re.Lit (u "Chapitre"))
                     (Re.Seq (Re.Plus ws) (Re.Plus (Re.OneOf (u "IVX"))))) ].

(** The pattern [^\s*[-•*]\s+]. *)
Definition list_item_re : Re.regex :=
  Re.Seq (Re.Star ws) (Re.Seq (Re.OneOf (u "-•*")) (Re.Plus ws)).

(** The body of the loop of [detect_sections] for the line of index [i]. *)
Definition detect_line (i : Z) (line : str) : list (Z * str) :=
  let line_stripped := strip line in
  if negb (truthy line_stripped) then []
  else
    (if existsb (fun matches => matches line_stripped) section_matchers
     then [(i, u "section_header")] else [])
    ++ (if re_match list_item_re line_stripped
        then [(i, u "list_item")] else [])
    ++ (if (len line_stripped <? 100) && endswith_char 58 line_stripped
        then [(i, u "subsection")] else []).

(** [detect_sections] *)
Definition detect_sections (self : TextProcessor) (text : str) : list (Z * str) :=
  let lines := split_on 10 text in
  flat_map (fun il => detect_line il.1 il.2) (enumerate_from 0 lines).

End MoreMethods.

(** The dict returned by [get_processing_stats] when it is not empty. *)
Record ProcessingStats : Type := mkProcessingStats {
  total_chunks : Z;
  total_characters : Z;
  total_words : Z;
  avg_chunk_size : Z;
  chunk_types : gmap (list N) Z;
  size_small : Z;
  size_medium : Z;
  size_large : Z
}.

(** The loop that counts the chunks of each type. *)
Definition count_type (chunk_types : gmap (list N) Z) (chunk : TextChunk)
  : gmap (list N) Z :=
  <[chunk_type chunk := default 0 (chunk_types !! chunk_type chunk) + 1]>
    chunk_types.

(** [get_processing_stats]; [None] is the empty dict returned for an empty
    list. [//] is the division rounded down. *)
Definition get_processing_stats (self : TextProcessor) (cs : list TextChunk)
  : option ProcessingStats :=
  if negb (truthy cs) then None
  else
    let total_chars := sum (List.map char_count cs) in
    let total_words := sum (List.map word_count cs) in
    Some {| total_chunks := len cs;
            total_characters := total_chars;
            total_words := total_words;
            avg_chunk_size := total_chars / len cs;
            chunk_types := fold_left count_type cs ∅;
            size_small :=
              len (List.filter (fun c => char_count c <? 200) cs);
            size_medium :=
              len (List.filter
                     (fun c => (200 <=? char_count c) && (char_count c <=? 400)) cs);
            size_large :=
              len (List.filter (fun c => char_count c >? 400) cs) |}.

(** ** [BaseExtractor.clean_text] *)

Module ExtractorText.

(** [clean_text] of the extractors. *)
Definition clean_text (text : str) : str :=
  if negb (truthy text) then []
  else
    let text := join (u " ") (split text) in
    let text :=
      List.filter (fun char => (32 <=? char)%N || existsb (N.eqb char) [10; 9]%N)
                  text in
    let text :=
      join [10%N]
           (List.map strip
              (List.filter (fun line => truthy (strip line)) (split_on 10 text))) in
    strip text.

End ExtractorText.

(** ** [ServicePublicExtractor.classify_fiche_domain] *)

Module ServicePublic.

Section ClassifyFiche.

Context `{UnicodeDB}.

(** [self.classification_keywords]: for each subcategory its keywords and
    its domain. *)
Definition classification_keywords : list (str * (list str * str)) :=
  [ (u "creation_entreprise",
     ([u "création"; u "créer"; u "SARL"; u "SAS"; u "micro-entreprise";
       u "auto-entrepreneur"; u "société"; u "statut"; u "immatriculation";
       u "capital"; u "gérant"],
      u "juridique"));
    (u "fiscal_entreprise",
     ([u "TVA"; u "impôt"; u "fiscal"; u "déclaration"; u "bénéfice";
       u "déduction"; u "crédit d'impôt"; u "comptabilité"; u "bilan"],
      u "economique"));
    (u "droit_travail",
     ([u "salarié"; u "contrat de travail"; u "licenciement"; u "préavis";
       u "indemnité"; u "temps de travail"; u "congés";
       u "formation professionnelle"],
      u "rh"));
    (u "social_paie",
     ([u "cotisations"; u "URSSAF"; u "charges sociales"; u "bulletin de paie";
       u "sécurité sociale"; u "retraite"; u "chômage"],
      u "rh"));
    (u "aides_publiques",
     ([u "aide"; u "subvention"; u "crédit"; u "financement"; u "dispositif";
       u "accompagnement"; u "soutien"],
      u "economique")) ].

Definition fiche_text_to_analyze (title content : str) : str :=
  lower (title ++ u " " ++ slice_to 1000 content).

(** The score of one subcategory. *)
Definition fiche_score (text_to_analyze : str) (kws : list str) : Z :=
  len (List.filter (fun keyword => contains (lower keyword) text_to_analyze) kws).

(** The dict [subcategory_scores]: the subcategories of positive score, in
    the order of the table, each with its score and its domain. *)
Definition subcategory_scores (title content : str) : list (str * (Z * str)) :=
  List.filter (fun e => e.2.1 >? 0)
    (List.map
       (fun sc => (sc.1, (fiche_score (fiche_text_to_analyze title content) sc.2.1,
                          sc.2.2)))
       classification_keywords).

(** [d[k]] on [subcategory_scores]; [None] is a [KeyError]. *)
Fixpoint item (d : list (str * (Z * str))) (k : str) : option (Z * str) :=
  match d with
  | [] => None
  | (k', v) :: d' => if decide (k' = k) then Some v else item d' k
  end.

(** [classify_fiche_domain], as (domain, subcategory); [None] is an
    exception raised by [max] or by a missing key. *)
Definition classify_fiche_domain (title content url : str) : option (str * str) :=
  let scores := subcategory_scores title content in
  if truthy scores then
    match BaseExtractor.py_max (fun x => default 0 (fst <$> item scores x))
                               (List.map fst scores) with
    | None => None
    | Some best_subcategory =>
        match item scores best_subcategory with
        | None => None
        | Some v => Some (v.2, best_subcategory)
        end
    end
  else Some (u "juridique", u "general").

End ClassifyFiche.

End ServicePublic.

(** ** [EmbeddingsGenerator] *)

Module Embeddings.

(** [preprocess_text_for_embedding]. The test [last_space > max_length * 0.8]
    compares an integer with 409.6: it holds from 410 on. *)
Definition preprocess_text_for_embedding (text : str) : str :=
  if negb (truthy text) then []
  else
    let cleaned := strip text in
    let max_length := 512 in
    if len cleaned >? max_length
    then
      let cleaned := slice_to 512 cleaned in
      let last_space := rfind SPACE cleaned in
      if 10 * last_space >? 8 * max_length
      then slice_to (Z.to_nat last_space) cleaned
      else cleaned
    else cleaned.

Section Generator.

(** [V] is a row of the array that the model returns. *)
Variable V : Type.

(** The attributes of an [EmbeddingsGenerator] that decide what its methods
    return: the model when it is loaded, as the function [encode] from the
    texts to the rows of their embeddings ([None] when it raises), and the
    counter [stats['total_embeddings_generated']]. The time statistics are
    floating-point numbers and are left out, as are the logger calls that
    cannot raise. *)
Record EmbeddingsGenerator : Type := mkGenerator {
  model : option (list (list N) -> option (list V));
  total_embeddings_generated : Z
}.

(** The test [text and len(text.strip()) >= 3]. *)
Definition long_enough (text : str) : bool :=
  truthy text && (len (strip text) >=? 3).

(** The indices of the texts that pass the test, counting from [i]. *)
Fixpoint valid_indices_from (i : nat) (texts : list str) : list nat :=
  match texts with
  | [] => []
  | t :: texts' =>
      if long_enough t then i :: valid_indices_from (S i) texts'
      else valid_indices_from (S i) texts'
  end.

(** The loop [result_embeddings[valid_idx] = embeddings[i]]; [None] is the
    [IndexError] of a missing row or of an index outside the result. *)
Fixpoint fill (result : list (option V)) (valid_indices : list nat)
    (embeddings : list V) : option (list (option V)) :=
  match valid_indices with
  | [] => Some result
  | valid_idx :: rest =>
      match embeddings with
      | [] => None
      | e :: embeddings' =>
          if (valid_idx <? length result)%nat
          then fill (<[valid_idx := Some e]> result) rest embeddings'
          else None
      end
  end.

(** [generate_batch_embeddings]: the generator after the call and the list
    returned. [elapsed_zero] tells that the two readings of the clock were
    equal, which makes the logged rate [valid_count/processing_time] raise
    inside the [try]. *)
Definition generate_batch_embeddings (self : EmbeddingsGenerator)
    (elapsed_zero : bool) (texts : list str)
  : EmbeddingsGenerator * list (option V) :=
  let all_none := replicate (length texts) None in
  match model self with
  | None => (self, all_none)
  | Some encode =>
      if negb (truthy texts) then (self, [])
      else
        let clean_texts :=
          List.map preprocess_text_for_embedding (List.filter long_enough texts) in
        let valid_indices := valid_indices_from 0 texts in
        if negb (truthy clean_texts) then (self, all_none)
        else
          match encode clean_texts with
          | None => (self, all_none)
          | Some embeddings =>
              match fill all_none valid_indices embeddings with
              | None => (self, all_none)
              | Some result_embeddings =>
                  let total :=
                    total_embeddings_generated self + len clean_texts in
                  let self' := {| model := model self;
                                  total_embeddings_generated := total |} in
                  if (total =? 0) || elapsed_zero then (self', all_none)
                  else (self', result_embeddings)
              end
          end
  end.

(** [process_text_chunks] *)
Definition process_text_chunks (self : EmbeddingsGenerator) (elapsed_zero : bool)
    (cs : list TextChunk) : EmbeddingsGenerator * list (TextChunk * option V) :=
  if negb (truthy cs) then (self, [])
  else
    let texts := List.map text cs in
    let r := generate_batch_embeddings self elapsed_zero texts in
    (r.1, zip cs r.2).

End Generator.

Arguments model {V} _.
Arguments total_embeddings_generated {V} _.
Arguments fill {V} _ _ _.
Arguments generate_batch_embeddings {V} _ _ _.
Arguments process_text_chunks {V} _ _ _.

End Embeddings.

(** ** Vocabulary of the properties *)

(** A sentence as the segmenter returns it: not empty, and neither its first
    nor its last character is whitespace. *)
Definition trimmedb (s : str) : bool :=
  match head s, last s with
  | Some c, Some d => negb (isspace c) && negb (isspace d)
  | _, _ => false
  end.

Definition trimmed (s : str) : Prop := trimmedb s = true.

(** [k] is a substring of [s]. *)
Definition occurs (k s : str) : Prop := exists a b, s = a ++ k ++ b.

(** [s] ends with [k]. *)
Definition ends_with (k s : str) : Prop := exists a, s = a ++ k.

(** The indices [0, ..., n-1]. *)
Definition iota (n : nat) : list Z := List.map Z.of_nat (seq 0 n).

(** A content chunk as the assembler builds it from its text [t]. *)
Definition content_chunk `{UnicodeDB} (self : TextProcessor) (t : str) (i : Z)
    (md : dict) : TextChunk :=
  TextChunk_new t i (len (split t)) (len t) (u "content")
    (classify_chunk_content self t) md.

(** [c] was closed inside the loop: its text reaches the floor and it carries
    the metadata of the loop. *)
Definition loop_closed `{UnicodeDB} (self : TextProcessor) (c : TextChunk) : Prop :=
  exists t i, min_chunk_size self <= len t
              /\ c = content_chunk self t i (loop_metadata t).

(** [carry] is an overlap carry over the sentences [before]: it is empty, as
    before the first buffer is closed, or it comes from a buffer made of
    consecutive sentences of [before] joined by spaces, and is that buffer
    or trailing words of it joined by spaces. *)
Definition carry_of (before : list str) (carry : str) : Prop :=
  carry = []
  \/ exists (j m : nat) (buffer : str),
       (0 < m)%nat /\ (j + m <= length before)%nat
       /\ buffer = join (u " ") (take m (drop j before))
       /\ (carry = buffer
           \/ exists k : nat, carry = join (u " ") (drop k (split buffer))).

(** The text of [c] is made of whole sentences: an overlap carry over the
    sentences before the [i]-th, a space and a non-empty run of consecutive
    sentences of [ss] from the [i]-th on joined by spaces, the whole
    trimmed. *)
Definition whole_sentences (ss : list str) (c : TextChunk) : Prop :=
  exists carry (i n : nat),
    (0 < n)%nat /\ (i + n <= length ss)%nat
    /\ carry_of (take i ss) carry
    /\ text c = strip (carry ++ u " " ++ join (u " ") (take n (drop i ss))).

(** The four structural flags of a chunk's metadata. *)
Definition has_key (k : str) (c : TextChunk) : Prop := is_Some (metadata c !! k).

Definition has_structural_flags (c : TextChunk) : Prop :=
  has_key (u "sentence_count") c /\ has_key (u "has_numbers") c
  /\ has_key (u "has_dates") c /\ has_key (u "complexity") c.

(** [n] is the number of distinct keywords of [kws] that occur in [t]. *)
Definition counts (n : Z) (kws : list str) (t : str) : Prop :=
  exists hits, List.NoDup hits
               /\ (forall k, In k hits <-> In k kws /\ occurs k t)
               /\ n = len hits.

(** ** Sample inputs *)

Module Sample.

Import Latin1.

(** [TextProcessor()], [TextProcessor(chunk_size=150)] and
    [TextProcessor(chunk_size=50, overlap=10)], spaCy not installed. *)
Definition default_processor : TextProcessor := TextProcessor_init 300 50 None.
Definition processor150 : TextProcessor := TextProcessor_init 150 50 None.

Definition blank100 : str := repeat SPACE 100.

Definition sentence126 : str :=
  u "Le salarié a droit à une formation professionnelle financée par l'employeur selon les modalités prévues par le code du travail".
Definition sentence114 : str :=
  u "Le salarié a droit à une formation professionnelle financée par l'employeur selon les modalités prévues par la loi".
Definition sentence84 : str :=
  u "L'employeur doit respecter cette obligation sous peine de sanction prévue par la loi".
Definition sentence59 : str :=
  u "Le salarié a droit à une formation professionnelle continue".
Definition sentence329 : str := join (u " ") (repeat (u "obligation") 30).

Definition padded_title : str := u "  Code du travail  ".
Definition document : str :=
  u "Le salarié a droit à une formation professionnelle. L'employeur doit financer cette formation selon les modalités prévues par la loi du 05/09/2018.".
Definition caller_metadata : dict :=
  <[u "sentence_count" := PyInt 99]> (<[u "domain" := PyStr (u "rh")]> ∅).

Definition the_final_chunk (self : TextProcessor) (t : str) (i : Z) : TextChunk :=
  content_chunk self t i (final_metadata t).

(** The content chunk of [document] once [process_document] has merged
    [caller_metadata] into it and moved it behind the title chunk. *)
Definition document_chunk_text : str :=
  u "Le salarié a droit à une formation professionnelle L'employeur doit financer cette formation selon les modalités prévues par la loi du 05/09/2018.".
Definition merged_chunk : TextChunk :=
  adjust caller_metadata 1 (the_final_chunk default_processor document_chunk_text 0).

(** The lists returned for [document] under [padded_title], without and with
    [caller_metadata]. *)
Definition document_chunks : list TextChunk :=
  [title_chunk padded_title ∅;
   adjust ∅ 1 (the_final_chunk default_processor document_chunk_text 0)].
Definition merged_chunks : list TextChunk :=
  [title_chunk padded_title caller_metadata; merged_chunk].

End Sample.

(** ** More sample inputs *)

Module MoreSamples.

Import Latin1 Sample.

(** [TextProcessor(chunk_size=150, overlap=0)], spaCy not installed. *)
Definition processor_no_overlap : TextProcessor := TextProcessor_init 150 0 None.

Definition short_content : str := u "Trop court.".
Definition first_sentence : str :=
  u "Le salarié a droit à une formation professionnelle".
Definition clean_title_chunk : TextChunk := title_chunk (u "Code du travail") ∅.
Definition clean_document_chunks : list TextChunk :=
  [clean_title_chunk;
   adjust ∅ 1 (the_final_chunk default_processor document_chunk_text 0)].
(** 659 characters: 60 words of 10 letters. *)
Definition long_text : str := sentence329 ++ u " " ++ sentence329.
(** A title with doubled spaces. *)
Definition spaced_title : str := u "  Code  du travail ".

(** A model that gives each text its length as embedding. *)
Definition length_model (texts : list str) : option (list Z) :=
  Some (List.map len texts).
Definition generator : Embeddings.EmbeddingsGenerator Z :=
  Embeddings.mkGenerator Z (Some length_model) 0.
Definition batch : list str := [u "Bonjour"; u "a"; sentence59].

End MoreSamples.

(** ** Vocabulary of the further properties *)

(** A word as [str.split()] returns it: not empty and without whitespace. *)
Definition wordb (w : str) : bool :=
  truthy w && forallb (fun c => negb (isspace c)) w.

Definition word (w : str) : Prop := wordb w = true.

(** The only whitespace of [s] is the space U+0020. *)
Definition plain_spaces (s : str) : Prop :=
  Forall (fun c => isspace c = true -> c = SPACE) s.

(** [s] is empty or trimmed. *)
Definition stripped (s : str) : Prop := s = [] \/ trimmed s.

(** [p] is a prefix of [s]. *)
Definition starts_with (p s : str) : Prop := exists b, s = p ++ b.

(** A control character that is not whitespace: [clean_text] of the
    extractors deletes these after it has joined the words. *)
Definition controlb (c : N) : bool := (c <? 32)%N && negb (isspace c).

(** Every punctuation mark of [s] among [,.!?;:] is its last character or
    is followed by a space. *)
Definition punctuation_spaced (s : str) : Prop :=
  forall a p b,
    s = a ++ p :: b -> In p (u ",.!?;:") -> b = [] \/ exists b', b = SPACE :: b'.

(** The repetition of the matcher on its own, for a given way [step] of
    matching the repeated pattern once. *)
Section RepOf.

Variable step : option N -> list N -> list (list N * list N).

Fixpoint rep_of (fuel lo : nat) (hi : option nat) (prev : option N) (s : str)
    {struct fuel} : list (str * str) :=
  let stop := match lo with O => [([], s)] | S _ => [] end in
  match fuel, hi with
  | O, _ | _, Some O => stop
  | S fuel', _ =>
      flat_map
        (fun m1 =>
           match m1.1 with
           | [] => []
           | _ => List.map (Re.glue m1.1)
                    (rep_of fuel' (Nat.pred lo) (Nat.pred <$> hi)
                            (Re.last_of prev m1.1) m1.2)
           end)
        (step prev s) ++ stop
  end.

End RepOf.

(** The number of chunks of type [t]. *)
Definition count_of_type (t : str) (cs : list TextChunk) : Z :=
  len (List.filter (fun c => bool_decide (chunk_type c = t)) cs).

(** Two string literals differ. *)
Ltac key_neq := let E := fresh in intros E; vm_compute in E; discriminate E.

(** ** Facts about Python strings *)

Example u_demarche : u "démarche" = [100; 233; 109; 97; 114; 99; 104; 101]%N.
Proof. reflexivity. Qed.

Example strip_ex : strip (u "  a b  ") = u "a b".
Proof. reflexivity. Qed.

Example split_ex : split (u " ab  c d ") = [u "ab"; u "c"; u "d"].
Proof. reflexivity. Qed.

Example replace_ex : replace (u "aa") (u "b") (u "aaaxaa") = u "baxb".
Proof. reflexivity. Qed.

Example slice_ex : slice_from (-2) [1;2;3;4] = [3;4] /\ slice_from 0 [1;2] = [1;2]
  /\ slice_from (-9) [1;2] = [1;2] /\ slice_from 1 [1;2;3] = [2;3].
Proof. repeat split. Qed.

Section StrFacts.

Implicit Types s a b k p : list N.

Lemma len_app {A} (l1 l2 : list A) : len (l1 ++ l2) = len l1 + len l2.
Proof. unfold len. rewrite length_app. lia. Qed.

Lemma len_nonneg {A} (l : list A) : 0 <= len l.
Proof. unfold len. lia. Qed.

Lemma truthy_true {A} (l : list A) : truthy l = true <-> l <> [].
Proof. destruct l; simpl; split; congruence. Qed.

Lemma truthy_false {A} (l : list A) : truthy l = false <-> l = [].
Proof. destruct l; simpl; split; congruence. Qed.

Lemma is_prefix_spec p s : is_prefix p s = true <-> exists b, s = p ++ b.
Proof.
  revert s. induction p as [|x p IH]; intros s; simpl.
  - split; [intros _; now exists s | reflexivity].
  - destruct s as [|y s].
    + split; [discriminate | intros [b Hb]; discriminate].
    + rewrite andb_true_iff, N.eqb_eq, IH. split.
      * intros [-> [b ->]]. now exists b.
      * intros [b Hb]. injection Hb as -> ->. split; [reflexivity | now exists b].
Qed.

Lemma contains_spec k s : contains k s = true <-> occurs k s.
Proof.
  unfold occurs. induction s as [|c s IH].
  - simpl. rewrite orb_false_r, is_prefix_spec. split.
    + intros [b Hb]. now exists [], b.
    + intros [a [b Hab]]. destruct a; [now exists b | discriminate].
  - cbn [contains]. rewrite orb_true_iff, is_prefix_spec, IH. split.
    + intros [[b Hb] | [a [b Hab]]].
      * now exists [], b.
      * exists (c :: a), b. simpl. now rewrite Hab.
    + intros [a [b Hab]]. destruct a as [|x a]; simpl in Hab.
      * left. now exists b.
      * right. injection Hab as _ ->. now exists a, b.
Qed.

Lemma trimmed_inv s :
  trimmed s ->
  exists c d, head s = Some c /\ last s = Some d
              /\ isspace c = false /\ isspace d = false.
Proof.
  unfold trimmed, trimmedb. destruct (head s) as [c|]; [|discriminate].
  destruct (last s) as [d|]; [|discriminate].
  rewrite andb_true_iff, !negb_true_iff. intros [? ?]. now exists c, d.
Qed.

Lemma trimmed_intro s c d :
  head s = Some c -> last s = Some d -> isspace c = false -> isspace d = false ->
  trimmed s.
Proof. unfold trimmed, trimmedb. now intros -> -> -> ->. Qed.



(** Joining two trimmed texts with any separator gives a trimmed text. *)
Lemma trimmed_app3 a sep b : trimmed a -> trimmed b -> trimmed (a ++ sep ++ b).
Proof.
  intros (c & _ & Ha & _ & Hc & _) % trimmed_inv
         (_ & d & _ & Hb & _ & Hd) % trimmed_inv.
  apply (trimmed_intro _ c d); trivial.
  - apply head_Some in Ha as [a' ->]. reflexivity.
  - apply last_Some in Hb as [b' ->].
    rewrite !app_assoc. apply last_snoc.
Qed.

Lemma lstrip_nonspace c s : isspace c = false -> lstrip (c :: s) = c :: s.
Proof. intros Hc. simpl. now rewrite Hc. Qed.

Lemma lstrip_app_keep a b c :
  head b = Some c -> isspace c = false -> exists p, lstrip (a ++ b) = p ++ b.
Proof.
  intros Hb Hc. apply head_Some in Hb as [b' ->].
  induction a as [|x a [p IH]]; simpl.
  - rewrite Hc. now exists [].
  - destruct (isspace x); [now exists p | now exists (x :: a)].
Qed.

Lemma rstrip_app_keep a b d :
  last b = Some d -> isspace d = false -> rstrip (a ++ b) = a ++ b.
Proof.
  intros Hb Hd. apply last_Some in Hb as [b' ->].
  unfold rstrip. rewrite app_assoc, rev_app_distr. simpl.
  rewrite Hd. simpl. now rewrite rev_involutive.
Qed.

(** Stripping a text that ends with a trimmed text leaves that text whole. *)
Lemma strip_app_trimmed a b : trimmed b -> ends_with b (strip (a ++ b)).
Proof.
  intros (c & d & Hh & Hl & Hc & Hd) % trimmed_inv.
  destruct (lstrip_app_keep a b c Hh Hc) as [p Hp].
  exists p. unfold strip. rewrite Hp. now apply (rstrip_app_keep p b d).
Qed.

Lemma ends_with_len k s : ends_with k s -> len k <= len s.
Proof. intros [a ->]. rewrite len_app. pose proof (len_nonneg a). lia. Qed.

Lemma ends_with_occurs k s : ends_with k s -> occurs k s.
Proof. intros [a ->]. exists a, []. now rewrite app_nil_r. Qed.

Lemma strip_trimmed s : trimmed s -> strip s = s.
Proof.
  intros (c & d & Hh & Hl & Hc & Hd) % trimmed_inv.
  unfold strip. apply head_Some in Hh as [s' ->]. rewrite lstrip_nonspace by trivial.
  now apply (rstrip_app_keep [] _ d).
Qed.

(** [strip] removes a run of whitespace at each end. *)
Lemma lstrip_decomp s :
  exists t, s = t ++ lstrip s /\ forallb isspace t = true.
Proof.
  induction s as [|c s (t & Ht & Hws)]; simpl.
  - now exists [].
  - destruct (isspace c) eqn:Hc.
    + exists (c :: t). simpl. rewrite Hc, Hws. split; [now f_equal | reflexivity].
    + now exists [].
Qed.

Lemma lstrip_head s c r : lstrip s = c :: r -> isspace c = false.
Proof.
  induction s as [|x s IH]; simpl; [discriminate|].
  destruct (isspace x) eqn:Hx; [exact IH | now intros [= <- _]].
Qed.

Lemma rstrip_decomp s :
  exists t, s = rstrip s ++ t /\ forallb isspace t = true.
Proof.
  destruct (lstrip_decomp (rev s)) as (t & Ht & Hws).
  exists (rev t). split.
  - unfold rstrip. rewrite <- rev_app_distr, <- Ht. now rewrite rev_involutive.
  - rewrite forallb_forall in *. intros x Hx. apply Hws. now apply in_rev.
Qed.

Lemma rstrip_last s d : last (rstrip s) = Some d -> isspace d = false.
Proof.
  unfold rstrip. destruct (lstrip (rev s)) as [|c r] eqn:Hl; [discriminate|].
  simpl. rewrite last_snoc. intros [= <-]. now apply lstrip_head in Hl.
Qed.

Lemma strip_decomp s :
  exists t1 t2, s = t1 ++ strip s ++ t2
                /\ forallb isspace t1 = true /\ forallb isspace t2 = true.
Proof.
  destruct (lstrip_decomp s) as (t1 & H1 & Hw1).
  destruct (rstrip_decomp (lstrip s)) as (t2 & H2 & Hw2).
  exists t1, t2. unfold strip. now rewrite <- H2.
Qed.

(** A non-empty result of [strip] is trimmed. *)
Lemma strip_is_trimmed s : truthy (strip s) = true -> trimmed (strip s).
Proof.
  intros Hne. apply truthy_true in Hne.
  destruct (last (strip s)) as [d|] eqn:Hd; [|now apply last_None in Hd].
  destruct (lstrip s) as [|c r] eqn:Hl.
  { exfalso. apply Hne. unfold strip. now rewrite Hl. }
  apply (trimmed_intro _ c d); trivial.
  - destruct (rstrip_decomp (lstrip s)) as (t & Ht & _). fold (strip s) in Ht.
    rewrite Hl in Ht. destruct (strip s) as [|x xs]; [contradiction|].
    simpl in Ht. now injection Ht as ->.
  - now apply lstrip_head in Hl.
  - now apply rstrip_last in Hd.
Qed.

(** [strip] is not empty exactly on a text with a character that is not
    whitespace. *)
Lemma strip_truthy_iff s :
  truthy (strip s) = true <-> existsb (fun c => negb (isspace c)) s = true.
Proof.
  destruct (strip_decomp s) as (t1 & t2 & Hs & Hw1 & Hw2). split.
  - intros Hne. pose proof (strip_is_trimmed s Hne) as Htr.
    apply trimmed_inv in Htr as (c & _ & Hh & _ & Hc & _).
    apply existsb_exists. exists c. rewrite Hc. split; [|reflexivity].
    rewrite Hs. apply head_Some in Hh as [r ->].
    apply in_or_app. right. now left.
  - intros (c & Hin & Hc) % existsb_exists. apply negb_true_iff in Hc.
    apply truthy_true. intros Hnil. rewrite Hnil in Hs. simpl in Hs.
    rewrite forallb_forall in Hw1, Hw2.
    rewrite Hs in Hin. apply in_app_or in Hin as [Hin | Hin];
      [apply Hw1 in Hin | apply Hw2 in Hin]; congruence.
Qed.

(** Replacing a token by a text that is not blank leaves no blank text. *)
Lemma replace_aux_nonblank old new skip s :
  existsb (fun c => negb (isspace c)) new = true ->
  existsb (fun c => negb (isspace c)) (drop skip s) = true ->
  existsb (fun c => negb (isspace c)) (replace_aux old new skip s) = true.
Proof.
  intros Hnew. revert skip. induction s as [|c s IH]; intros skip Hs.
  - now destruct skip.
  - destruct skip as [|k]; simpl.
    + destruct (is_prefix old (c :: s)).
      * rewrite existsb_app, Hnew. reflexivity.
      * simpl in *. destruct (negb (isspace c)); [reflexivity|].
        apply IH. exact Hs.
    + apply IH. exact Hs.
Qed.

Lemma replace_nonblank old new s :
  existsb (fun c => negb (isspace c)) new = true ->
  existsb (fun c => negb (isspace c)) s = true ->
  existsb (fun c => negb (isspace c)) (replace old new s) = true.
Proof.
  intros Hnew Hs. unfold replace. destruct old as [|o old].
  - rewrite existsb_app, Hnew. reflexivity.
  - now apply replace_aux_nonblank.
Qed.

Lemma join_snoc sep (l : list (list N)) s :
  l <> [] -> join sep (l ++ [s]) = join sep l ++ sep ++ s.
Proof.
  induction l as [|w [|w2 l] IH]; intros Hne; [contradiction | reflexivity|].
  change (join sep ((w :: w2 :: l) ++ [s]))
    with (w ++ sep ++ join sep ((w2 :: l) ++ [s])).
  rewrite IH by discriminate.
  change (join sep (w :: w2 :: l)) with (w ++ sep ++ join sep (w2 :: l)).
  now rewrite <- !app_assoc.
Qed.

Lemma join_truthy sep (l : list (list N)) : truthy (join sep l) = true -> l <> [].
Proof. intros Hj ->. discriminate Hj. Qed.

(** A slice from an index on is the list without its first elements. *)
Lemma slice_from_drop {A} (k : Z) (l : list A) :
  exists n, slice_from k l = drop n l.
Proof. unfold slice_from. eauto. Qed.

(** [split] does not see the whitespace that [strip] removes. *)
Lemma split_aux_blank_l t s :
  forallb isspace t = true -> PyStr.split_aux [] (t ++ s) = PyStr.split_aux [] s.
Proof.
  induction t as [|c t IH]; simpl; [reflexivity|].
  intros [Hc Ht] % andb_true_iff. rewrite Hc. now apply IH.
Qed.

Lemma split_aux_blank_r w s t :
  forallb isspace t = true -> PyStr.split_aux w (s ++ t) = PyStr.split_aux w s.
Proof.
  intros Ht. revert w. induction s as [|c s IH]; intros w; simpl.
  - revert w. induction t as [|x t IHt]; intros w; simpl; [reflexivity|].
    apply andb_true_iff in Ht as [Hx Ht]. rewrite Hx.
    destruct w; rewrite (IHt Ht); [reflexivity|].
    now destruct t.
  - destruct (isspace c); [destruct w|]; now rewrite ?IH.
Qed.

Lemma split_strip s : split (strip s) = split s.
Proof.
  destruct (strip_decomp s) as (t1 & t2 & Hs & Hw1 & Hw2).
  unfold split. rewrite Hs at 2.
  now rewrite split_aux_blank_l, split_aux_blank_r.
Qed.

End StrFacts.

(** ** The chunk assembler *)

Section Assembler.

Context `{UnicodeDB}.
Variable self : TextProcessor.

Lemma content_chunk_fields t i md :
  let c := content_chunk self t i md in
  text c = t /\ chunk_index c = i /\ word_count c = len (split t)
  /\ char_count c = len t /\ chunk_type c = u "content" /\ metadata c = md.
Proof.
  unfold content_chunk, TextChunk_new. simpl. repeat split.
  - now destruct (len (split t) =? 0).
  - now destruct (len t =? 0).
Qed.

(** What one iteration that does not raise does: it closes the buffer,
    appending its text as a chunk when the text reaches the floor, and
    starts the next buffer with the sentence; or it adds the sentence to the
    buffer. *)
Lemma asm_step_inv st s st' :
  asm_step self st s = Some st' ->
  (truthy (current_chunk st) = true
   /\ chunk_size self < len (current_chunk st ++ u " " ++ s)
   /\ current_chunk st' = s
   /\ next_overlap self (current_chunk st) = Some (overlap_buffer st')
   /\ let t := strip (overlap_buffer st ++ u " " ++ current_chunk st) in
      (min_chunk_size self <= len t
       /\ chunks st'
          = chunks st ++ [content_chunk self t (next_index st) (loop_metadata t)]
       /\ next_index st' = next_index st + 1
       \/ len t < min_chunk_size self
          /\ chunks st' = chunks st /\ next_index st' = next_index st))
  \/ (chunks st' = chunks st /\ next_index st' = next_index st
      /\ overlap_buffer st' = overlap_buffer st
      /\ (truthy (current_chunk st) = true
          /\ current_chunk st' = current_chunk st ++ u " " ++ s
          /\ len (current_chunk st ++ u " " ++ s) <= chunk_size self
          \/ truthy (current_chunk st) = false /\ current_chunk st' = s)).
Proof.
  unfold asm_step. cbv zeta.
  destruct (truthy (current_chunk st)) eqn:Hcur.
  - rewrite andb_true_r.
    destruct (Z.gtb_spec (len (current_chunk st ++ u " " ++ s)) (chunk_size self))
      as [Hlong | Hshort].
    + destruct (next_overlap self (current_chunk st)) as [ov|]; [|discriminate].
      destruct (len (strip (overlap_buffer st ++ u " " ++ current_chunk st))
                >=? min_chunk_size self) eqn:Hfloor;
        intros [= <-]; left; (do 4 (split; [reflexivity || assumption|]));
        rewrite Z.geb_leb in Hfloor;
        [apply Z.leb_le in Hfloor; left | apply Z.leb_gt in Hfloor; right];
        now repeat split.
    + intros [= <-]. right.
      do 3 (split; [reflexivity|]). left. now repeat split.
  - rewrite andb_false_r. intros [= <-]. right.
    do 3 (split; [reflexivity|]). right. now split.
Qed.

(** One iteration either leaves the list of chunks alone or appends the
    closed buffer, with the next index. *)
Lemma asm_step_chunks st s st' :
  asm_step self st s = Some st' ->
  (chunks st' = chunks st /\ next_index st' = next_index st)
  \/ (let t := strip (overlap_buffer st ++ u " " ++ current_chunk st) in
      min_chunk_size self <= len t
      /\ truthy (current_chunk st) = true
      /\ chunks st'
         = chunks st ++ [content_chunk self t (next_index st) (loop_metadata t)]
      /\ next_index st' = next_index st + 1).
Proof.
  intros [(Hcur & _ & _ & _ & [(Hfloor & Hch & Hidx) | (_ & Hch & Hidx)])
         | (Hch & Hidx & _)] % asm_step_inv.
  - right. now repeat split.
  - left. now split.
  - left. now split.
Qed.

(** What the buffer becomes in one iteration. *)
Lemma asm_step_current st s st' :
  asm_step self st s = Some st' ->
  current_chunk st' = s
  \/ current_chunk st' = current_chunk st ++ u " " ++ s
     /\ truthy (current_chunk st) = true.
Proof.
  intros [(_ & _ & Hs & _)
         | (_ & _ & _ & [(Hcur & Hs & _) | (_ & Hs)])] % asm_step_inv.
  - now left.
  - right. now split.
  - now left.
Qed.

(** The loop over a list followed by another. *)
Lemma asm_run_app ss1 ss2 st :
  asm_run self (ss1 ++ ss2) st
  = match asm_run self ss1 st with
    | Some st' => asm_run self ss2 st'
    | None => None
    end.
Proof.
  revert st. induction ss1 as [|s ss1 IH]; intros st; [reflexivity|].
  cbn [app asm_run]. destruct (asm_step self st s); [apply IH | reflexivity].
Qed.

(** An invariant of the loop: it holds at the start and every iteration
    over a sentence of the list keeps it. *)
Lemma asm_run_invariant (P : asm_state -> Prop) (ss : list str)
    (st st_end : asm_state) :
  P st ->
  (forall st1 s st2, In s ss -> P st1 -> asm_step self st1 s = Some st2 -> P st2) ->
  asm_run self ss st = Some st_end -> P st_end.
Proof.
  revert st. induction ss as [|s ss IH]; intros st Hst Hstep; cbn [asm_run].
  - now intros [= <-].
  - destruct (asm_step self st s) as [st'|] eqn:Hs; [|discriminate].
    apply IH.
    + apply (Hstep st s st'); [now left | assumption | assumption].
    + intros st1 s1 st2 Hin. apply Hstep. now right.
Qed.

(** Induction on the sentences read so far. *)
Lemma asm_loop_ind (P : list str -> asm_state -> Prop) :
  P [] asm_init ->
  (forall ss s st st',
      asm_loop self ss = Some st -> P ss st ->
      asm_step self st s = Some st' -> P (ss ++ [s]) st') ->
  forall ss st, asm_loop self ss = Some st -> P ss st.
Proof.
  intros Hinit Hstep. induction ss as [|s ss IH] using rev_ind; intros st.
  - now intros [= <-].
  - unfold asm_loop. rewrite asm_run_app.
    destruct (asm_run self ss asm_init) as [st0|] eqn:Hss; [|discriminate].
    cbn [asm_run]. destruct (asm_step self st0 s) as [st1|] eqn:Hs; [|discriminate].
    intros [= <-]. apply (Hstep ss s st0 st1); [exact Hss | now apply IH | exact Hs].
Qed.


Lemma asm_loop_closed ss st :
  asm_loop self ss = Some st -> Forall (loop_closed self) (chunks st).
Proof.
  apply (asm_run_invariant (fun st => Forall (loop_closed self) (chunks st))).
  - constructor.
  - intros st1 s st2 _ Hst Hs.
    destruct (asm_step_chunks st1 s st2 Hs) as [[-> _] | (Hfloor & _ & -> & _)];
      [assumption|].
    apply Forall_app. split; [assumption|]. constructor; [|constructor].
    eexists _, _. split; [exact Hfloor | reflexivity].
Qed.

Lemma iota_S n : iota (S n) = iota n ++ [Z.of_nat n].
Proof. unfold iota. now rewrite seq_S, map_app. Qed.

Lemma asm_loop_indices ss st :
  asm_loop self ss = Some st ->
  List.map chunk_index (chunks st) = iota (length (chunks st))
  /\ next_index st = len (chunks st).
Proof.
  apply (asm_run_invariant
           (fun st => List.map chunk_index (chunks st) = iota (length (chunks st))
                      /\ next_index st = len (chunks st))).
  - now split.
  - intros st1 s st2 _ [Hidx Hnext] Hs.
    destruct (asm_step_chunks st1 s st2 Hs) as [[-> ->] | (_ & _ & -> & ->)];
      [now split|].
    rewrite map_app, length_app, Nat.add_comm. simpl. rewrite iota_S, Hidx.
    rewrite len_app, Hnext. unfold len. simpl. split; [reflexivity | lia].
Qed.

(** With trimmed sentences the buffer is empty or trimmed. *)
Lemma asm_loop_buffer ss st :
  Forall trimmed ss ->
  asm_loop self ss = Some st ->
  current_chunk st = [] \/ trimmed (current_chunk st).
Proof.
  intros Hss.
  apply (asm_run_invariant
           (fun st => current_chunk st = [] \/ trimmed (current_chunk st))).
  - now left.
  - intros st1 s st2 Hin Hst Hs. right.
    assert (Htr : trimmed s) by exact (proj1 (List.Forall_forall _ _) Hss s Hin).
    destruct (asm_step_current st1 s st2 Hs) as [-> | [-> Hcur]]; [assumption|].
    destruct Hst as [Hnil | Htr1].
    + rewrite Hnil in Hcur. discriminate.
    + now apply trimmed_app3.
Qed.

(** The last chunk, when there is one. *)
Lemma final_chunk_Some st c :
  final_chunk self st = Some c <->
  current_chunk st <> [] /\ min_chunk_size self <= len (current_chunk st)
  /\ let t := strip (overlap_buffer st ++ u " " ++ current_chunk st) in
     c = content_chunk self t (next_index st) (final_metadata t).
Proof.
  unfold final_chunk.
  destruct (truthy (current_chunk st)) eqn:Hcur; simpl.
  - apply truthy_true in Hcur. rewrite Z.geb_leb.
    destruct (Z.leb_spec (min_chunk_size self) (len (current_chunk st))).
    + split.
      * intros [= <-]. now repeat split.
      * intros (_ & _ & ->). reflexivity.
    + split; [discriminate | intros (_ & ? & _); lia].
  - apply truthy_false in Hcur. split; [discriminate | intros (? & _); contradiction].
Qed.

Lemma final_chunk_None st :
  final_chunk self st = None <->
  current_chunk st = [] \/ len (current_chunk st) < min_chunk_size self.
Proof.
  unfold final_chunk.
  destruct (truthy (current_chunk st)) eqn:Hcur; simpl.
  - apply truthy_true in Hcur. rewrite Z.geb_leb.
    destruct (Z.leb_spec (min_chunk_size self) (len (current_chunk st))).
    + split; [discriminate | intros [? | ?]; [contradiction | lia]].
    + split; [now right | reflexivity].
  - apply truthy_false in Hcur. split; [now left | reflexivity].
Qed.

(** The call returns when the loop ends, with the chunks of the loop and the
    last chunk. *)
Lemma create_chunks_Some ss cs :
  create_chunks_with_overlap self ss = Some cs <->
  exists st, asm_loop self ss = Some st /\ cs = assembled self st.
Proof.
  unfold create_chunks_with_overlap. destruct (asm_loop self ss) as [st|].
  - split; [intros [= <-]; now exists st | intros (st' & [= <-] & ->); reflexivity].
  - split; [discriminate | intros (st' & Hst & _); discriminate].
Qed.

Lemma assembled_In st c :
  In c (assembled self st) <-> In c (chunks st) \/ final_chunk self st = Some c.
Proof.
  unfold assembled. destruct (final_chunk self st) as [c'|].
  - rewrite in_app_iff. simpl. split.
    + intros [? | [-> | []]]; [now left | now right].
    + intros [? | [= ->]]; [now left | right; now left].
  - split; [now left | intros [? | ?]; [assumption | discriminate]].
Qed.

Lemma create_chunks_In ss cs c :
  create_chunks_with_overlap self ss = Some cs ->
  In c cs ->
  exists st, asm_loop self ss = Some st
             /\ (In c (chunks st) \/ final_chunk self st = Some c).
Proof.
  intros (st & Hst & ->) % create_chunks_Some Hc. exists st.
  split; [exact Hst | now apply assembled_In].
Qed.

End Assembler.

(** ** Properties of [create_chunks_with_overlap] *)

Section AssemblerProperties.

Context `{UnicodeDB}.

Lemma create_chunks_indices self ss cs :
  create_chunks_with_overlap self ss = Some cs ->
  List.map chunk_index cs = iota (length cs).
Proof.
  intros (st & Hst & ->) % create_chunks_Some.
  destruct (asm_loop_indices self ss st Hst) as [Hidx Hnext].
  unfold assembled.
  destruct (final_chunk self st) as [c|] eqn:Hfin; [|exact Hidx].
  apply final_chunk_Some in Hfin as (_ & _ & ->).
  rewrite map_app, length_app, Nat.add_comm. simpl.
  now rewrite iota_S, Hidx, Hnext.
Qed.

(** Every chunk returned is a content chunk whose counts are those of its
    text. *)
Lemma create_chunks_counts self ss cs c :
  create_chunks_with_overlap self ss = Some cs ->
  In c cs ->
  chunk_type c = u "content"
  /\ word_count c = len (split (text c)) /\ char_count c = len (text c).
Proof.
  intros Hcs Hc.
  destruct (create_chunks_In self ss cs c Hcs Hc) as (st & Hst & [Hloop | Hfin]).
  - pose proof (asm_loop_closed self ss st Hst) as Hall.
    destruct (proj1 (List.Forall_forall _ _) Hall c Hloop) as (t & i & _ & ->).
    destruct (content_chunk_fields self t i (loop_metadata t))
      as (-> & _ & -> & -> & -> & _). now repeat split.
  - apply final_chunk_Some in Hfin as (_ & _ & ->).
    match goal with |- context [content_chunk self ?t ?i ?md] =>
      destruct (content_chunk_fields self t i md) as (-> & _ & -> & -> & -> & _)
    end. now repeat split.
Qed.

(** The floor on the chunks of trimmed sentences. *)
Lemma create_chunks_floor self ss cs c :
  Forall trimmed ss ->
  create_chunks_with_overlap self ss = Some cs ->
  In c cs ->
  chunk_type c = u "content"
  /\ char_count c = len (text c)
  /\ min_chunk_size self <= char_count c.
Proof.
  intros Hss Hcs Hc.
  destruct (create_chunks_counts self ss cs c Hcs Hc) as (Hty & _ & Hcc).
  repeat split; trivial. rewrite Hcc.
  destruct (create_chunks_In self ss cs c Hcs Hc) as (st & Hst & [Hloop | Hfin]).
  - pose proof (asm_loop_closed self ss st Hst) as Hall.
    destruct (proj1 (List.Forall_forall _ _) Hall c Hloop) as (t & i & Hfloor & ->).
    now destruct (content_chunk_fields self t i (loop_metadata t)) as (-> & _).
  - apply final_chunk_Some in Hfin as (Hne & Hfloor & ->).
    match goal with |- context [content_chunk self ?t ?i ?md] =>
      destruct (content_chunk_fields self t i md) as (-> & _)
    end.
    destruct (asm_loop_buffer self ss st Hss Hst) as [Hnil | Htr]; [contradiction|].
    pose proof (strip_app_trimmed (overlap_buffer st ++ u " ") (current_chunk st) Htr)
      as Hend.
    rewrite <- app_assoc in Hend. apply ends_with_len in Hend. lia.
Qed.




(** What [next_overlap] leaves of a buffer is the buffer or trailing words
    of it. *)
Lemma next_overlap_trailing self cur carry :
  next_overlap self cur = Some carry ->
  carry = cur \/ exists k : nat, carry = join (u " ") (drop k (split cur)).
Proof.
  unfold next_overlap. cbv zeta.
  destruct (len (split cur) >? 10); [|intros [= <-]; now left].
  destruct (int_tenth (overlap self)) as [k|]; [|discriminate].
  intros [= <-]. right.
  destruct (slice_from_drop (- k) (split cur)) as [n ->]. now exists n.
Qed.

Lemma carry_of_app before ext carry :
  carry_of before carry -> carry_of (before ++ ext) carry.
Proof.
  intros [-> | (j & m & buffer & Hm & Hjm & Hb & Hc)]; [now left|].
  right. exists j, m, buffer. rewrite length_app.
  split; [assumption|]. split; [lia|]. split; [|exact Hc].
  rewrite drop_app_le by lia. rewrite take_app_le by (rewrite length_drop; lia).
  exact Hb.
Qed.

Lemma carry_of_take (i : nat) ss carry :
  carry_of (take i ss) carry -> carry_of ss carry.
Proof.
  intros Hc. rewrite <- (take_drop i ss). now apply carry_of_app.
Qed.

Lemma whole_sentences_snoc ss s c :
  whole_sentences ss c -> whole_sentences (ss ++ [s]) c.
Proof.
  intros (carry & i & n & Hn & Hin & Hcarry & Ht). exists carry, i, n.
  rewrite length_app. simpl. split; [assumption|]. split; [lia|]. split.
  - rewrite take_app_le by lia. exact Hcarry.
  - rewrite drop_app_le by lia. rewrite take_app_le; [assumption|].
    rewrite length_drop. lia.
Qed.

(** During the loop the buffer is a run of the last sentences read, joined
    by spaces, the carry is an overlap carry over the sentences before that
    run, and every chunk closed so far is made of whole sentences. *)
Lemma asm_loop_whole_sentences self ss st :
  asm_loop self ss = Some st ->
  (exists i : nat, (i <= length ss)%nat
                   /\ current_chunk st = join (u " ") (drop i ss)
                   /\ carry_of (take i ss) (overlap_buffer st))
  /\ Forall (whole_sentences ss) (chunks st).
Proof.
  revert ss st.
  apply (asm_loop_ind self
           (fun ss st =>
              (exists i : nat, (i <= length ss)%nat
                               /\ current_chunk st = join (u " ") (drop i ss)
                               /\ carry_of (take i ss) (overlap_buffer st))
              /\ Forall (whole_sentences ss) (chunks st))).
  { split; [exists 0%nat; repeat split; now left | constructor]. }
  intros ss s st st' Hst [(i & Hi & Hcur & Hcarry) Hchunks] Hs.
  assert (Hold : Forall (whole_sentences (ss ++ [s])) (chunks st)).
  { eapply List.Forall_impl; [|exact Hchunks].
    intros c. apply whole_sentences_snoc. }
  assert (Hrun : truthy (current_chunk st) = true -> (0 < length ss - i)%nat).
  { rewrite Hcur. intros Htr % join_truthy.
    assert (length (drop i ss) <> 0%nat)
      by (intros Hlen; apply Htr; now apply length_zero_iff_nil).
    rewrite length_drop in *. lia. }
  destruct (asm_step_inv self st s st' Hs)
    as [(Htr & _ & Hs' & Hov & Hch) | (Hch & _ & Hov & Hcases)].
  - specialize (Hrun Htr). split.
    + exists (length ss). rewrite length_app. split; [simpl; lia|].
      rewrite drop_app_length, take_app_length. split; [exact Hs'|].
      right. exists i, (length ss - i)%nat, (current_chunk st).
      split; [exact Hrun|]. split; [lia|]. split.
      * rewrite take_ge by (rewrite length_drop; lia). exact Hcur.
      * exact (next_overlap_trailing self _ _ Hov).
    + cbv zeta in Hch. destruct Hch as [(_ & -> & _) | (_ & -> & _)]; [|exact Hold].
      apply Forall_app. split; [exact Hold|]. constructor; [|constructor].
      exists (overlap_buffer st), i, (length ss - i)%nat.
      rewrite length_app. split; [exact Hrun|]. split; [simpl; lia|]. split.
      * rewrite take_app_le by lia. exact Hcarry.
      * rewrite drop_app_le by lia.
        rewrite take_app_le by (rewrite length_drop; lia).
        rewrite take_ge by (rewrite length_drop; lia). now rewrite Hcur.
  - rewrite Hch, Hov. split; [|exact Hold].
    destruct Hcases as [(Htr & Hs' & _) | (_ & Hs')].
    + exists i. rewrite length_app. split; [lia|]. split.
      * rewrite drop_app_le by lia. rewrite Hs', Hcur.
        symmetry. apply join_snoc. rewrite Hcur in Htr. now apply join_truthy in Htr.
      * rewrite take_app_le by lia. exact Hcarry.
    + exists (length ss). rewrite length_app. split; [simpl; lia|].
      rewrite drop_app_length, take_app_length. split; [exact Hs'|].
      now apply (carry_of_take i).
Qed.

(** Every chunk returned is made of whole sentences. *)
Lemma create_chunks_whole_sentences self ss cs c :
  create_chunks_with_overlap self ss = Some cs ->
  In c cs -> whole_sentences ss c.
Proof.
  intros Hcs Hc.
  destruct (create_chunks_In self ss cs c Hcs Hc) as (st & Hst & Hin).
  destruct (asm_loop_whole_sentences self ss st Hst)
    as [(i & Hi & Hcur & Hcarry) Hchunks].
  destruct Hin as [Hloop | Hfin].
  - exact (proj1 (List.Forall_forall _ _) Hchunks c Hloop).
  - apply final_chunk_Some in Hfin as (Hne & _ & ->).
    exists (overlap_buffer st), i, (length ss - i)%nat.
    assert (length (drop i ss) <> 0%nat).
    { intros Hlen. apply Hne. rewrite Hcur.
      apply length_zero_iff_nil in Hlen. now rewrite Hlen. }
    rewrite length_drop in *. split; [lia|]. split; [lia|]. split; [exact Hcarry|].
    rewrite take_ge by (rewrite length_drop; lia). simpl. now rewrite Hcur.
Qed.






End AssemblerProperties.

(** ** Properties of [process_document] *)

Section Pipeline.

Context `{UnicodeDB}.

Lemma iota_shift n : 0 :: List.map (fun z => z + 1) (iota n) = iota (S n).
Proof.
  unfold iota. simpl. f_equal. rewrite <- seq_shift, !map_map.
  apply map_ext. intros k. lia.
Qed.

Lemma iota_shift0 n : List.map (fun z => z + 0) (iota n) = iota n.
Proof.
  rewrite <- (map_id (iota n)) at 2. apply map_ext. intros k. lia.
Qed.

Lemma adjust_indices md k cs :
  List.map chunk_index (List.map (adjust md k) cs)
  = List.map (fun z => z + k) (List.map chunk_index cs).
Proof. rewrite !map_map. reflexivity. Qed.

Lemma title_is_not_content : u "content" <> u "title".
Proof. intros E. vm_compute in E. discriminate E. Qed.

(** The list returned by [process_document]: nothing for a content that is
    too short when cleaned; otherwise the title chunk, when the title passes
    its test, and the chunks of the assembler moved behind it. *)
Lemma process_document_shape self title content metadata out :
  process_document self title content metadata = Some out ->
  let md := match metadata with Some m => m | None => ∅ end in
  let chunks0 :=
    if truthy title && (len (strip title) >? 10)
    then [title_chunk title md] else [] in
  (len (clean_text content) < min_chunk_size self /\ out = [])
  \/ (min_chunk_size self <= len (clean_text content)
      /\ exists cs,
           out = chunks0 ++ List.map (adjust md (len chunks0)) cs
           /\ (cs = []
               \/ create_chunks_with_overlap self
                    (smart_split_sentences self (clean_text content)) = Some cs)).
Proof.
  unfold process_document, process_document_run. cbv zeta.
  destruct (Z.ltb_spec (len (clean_text content)) (min_chunk_size self))
    as [Hshort | Hlong].
  { intros [= <-]. left. now split. }
  destruct (truthy (smart_split_sentences self (clean_text content)));
    cbn [negb].
  - destruct (create_chunks_with_overlap self _) as [created|]; [|discriminate].
    intros [= <-]. right. split; [exact Hlong|]. exists created.
    split; [reflexivity | now right].
  - intros [= <-]. right. split; [exact Hlong|]. exists [].
    rewrite app_nil_r. split; [reflexivity | now left].
Qed.

(** The same, without the tests. *)
Lemma process_document_parts self title content metadata out :
  process_document self title content metadata = Some out ->
  let md := match metadata with Some m => m | None => ∅ end in
  exists chunks0 cs,
    out = chunks0 ++ List.map (adjust md (len chunks0)) cs
    /\ (chunks0 = []
        \/ chunks0 = [title_chunk title md] /\ 10 < len (strip title))
    /\ (cs = []
        \/ create_chunks_with_overlap self
             (smart_split_sentences self (clean_text content)) = Some cs).
Proof.
  intros [[_ ->] | (_ & cs & -> & Hcs)] % process_document_shape; cbv zeta.
  - exists [], []. repeat split; now left.
  - eexists _, cs. split; [reflexivity|]. split; [|exact Hcs].
    destruct (truthy title); cbn [andb]; [|now left].
    destruct (Z.gtb_spec (len (strip title)) 10); [right; now split | now left].
Qed.

Lemma adjusted_is_content self ss cs md k c :
  create_chunks_with_overlap self ss = Some cs ->
  In c (List.map (adjust md k) cs) ->
  chunk_type c = u "content".
Proof.
  intros Hcs (c0 & <- & Hc0) % in_map_iff. simpl.
  now destruct (create_chunks_counts self ss cs c0 Hcs Hc0) as (-> & _).
Qed.

(** The content chunks of the list returned. *)
Lemma process_document_contents self title content metadata out :
  process_document self title content metadata = Some out ->
  let md := match metadata with Some m => m | None => ∅ end in
  let chunks0 :=
    if truthy title && (len (strip title) >? 10)
    then [title_chunk title md] else [] in
  min_chunk_size self <= len (clean_text content) ->
  exists rest,
    out = chunks0 ++ rest /\ Forall (fun c => chunk_type c = u "content") rest.
Proof.
  intros [[Hshort _] | (_ & cs & -> & Hcs)] % process_document_shape;
    cbv zeta; intros Hlong; [lia|].
  eexists. split; [reflexivity|]. apply List.Forall_forall. intros c Hc.
  destruct Hcs as [-> | Hcs]; [destruct Hc|].
  exact (adjusted_is_content self _ cs _ _ c Hcs Hc).
Qed.

(** C3. In every list that [process_document] returns, the chunk indices
    are 0, 1, ..., N-1 in this order, N the length of the list, and a chunk
    of type ['title'] is the first element and has index 0. The chunk made
    from the title is in the list exactly when the cleaned content is not
    below [min_chunk_size] and the title, once trimmed, has more than 10
    characters: it is then the first chunk, it has the type ['title'], the
    index 0 and the trimmed title as text, and the chunks after it have the
    type ['content']; in the other cases every chunk has the type
    ['content']. *)
Theorem process_document_indices self title content metadata out :
  process_document self title content metadata = Some out ->
  List.map chunk_index out = iota (length out)
  /\ (forall c, In c out -> chunk_type c = u "title" ->
                chunk_index c = 0 /\ head out = Some c)
  /\ (len (clean_text content) < min_chunk_size self -> out = [])
  /\ (min_chunk_size self <= len (clean_text content) ->
      if truthy title && (len (strip title) >? 10)
      then exists c rest,
             out = c :: rest
             /\ chunk_type c = u "title" /\ chunk_index c = 0
             /\ text c = strip title
             /\ Forall (fun c' => chunk_type c' = u "content") rest
      else Forall (fun c' => chunk_type c' = u "content") out).
Proof.
  intros Hout.
  destruct (process_document_parts self title content metadata out Hout)
    as (chunks0 & cs & Hshape & Hchunks0 & Hcs).
  split; [|split; [|split]].
  - rewrite Hshape, map_app, adjust_indices, length_app, length_map.
    assert (Hidx : List.map chunk_index cs = iota (length cs)).
    { destruct Hcs as [-> | Hcs];
        [reflexivity | exact (create_chunks_indices self _ cs Hcs)]. }
    rewrite Hidx.
    destruct Hchunks0 as [-> | [-> _]]; simpl.
    + apply iota_shift0.
    + apply iota_shift.
  - rewrite Hshape. intros c [Hc | Hc] % in_app_iff Hty.
    + destruct Hchunks0 as [-> | [-> _]]; [contradiction|].
      destruct Hc as [<- | []]. now split.
    + exfalso. destruct Hcs as [-> | Hcs]; [contradiction|].
      apply (adjusted_is_content self _ cs _ _ c Hcs) in Hc.
      rewrite Hc in Hty. now apply title_is_not_content.
  - intros Hshort.
    destruct (process_document_shape self title content metadata out Hout)
      as [[_ ->] | [Hlong _]]; [reflexivity | lia].
  - intros Hlong.
    destruct (process_document_contents self title content metadata out Hout Hlong)
      as (rest & -> & Hrest).
    destruct (truthy title && (len (strip title) >? 10)); [|exact Hrest].
    eexists _, rest. split; [reflexivity|]. now repeat split.
Qed.

(** C9. In a content chunk returned by [process_document], every key of the
    caller's metadata has the caller's value, also when the assembler wrote
    the same key; every other key has the value the assembler gave it. *)
Theorem caller_metadata_precedence self title content md out c :
  process_document self title content (Some md) = Some out ->
  In c out ->
  chunk_type c = u "content" ->
  exists cs c0,
    create_chunks_with_overlap self
      (smart_split_sentences self (clean_text content)) = Some cs
    /\ In c0 cs
    /\ text c = text c0
    /\ (forall k v, md !! k = Some v -> metadata c !! k = Some v)
    /\ (forall k, md !! k = None -> metadata c !! k = metadata c0 !! k).
Proof.
  intros Hout.
  destruct (process_document_parts self title content (Some md) out Hout)
    as (chunks0 & cs & -> & Hchunks0 & Hcs).
  intros [Hc | Hc] % in_app_iff Hty.
  - exfalso. destruct Hchunks0 as [-> | [-> _]]; [contradiction|].
    destruct Hc as [<- | []]. simpl in Hty. symmetry in Hty.
    now apply title_is_not_content.
  - destruct Hcs as [-> | Hcs]; [contradiction|].
    apply in_map_iff in Hc as (c0 & <- & Hc0).
    exists cs, c0. split; [assumption|]. split; [assumption|].
    split; [reflexivity|].
    unfold adjust, dict_update. simpl. split.
    + intros k v Hk. now apply lookup_union_Some_l.
    + intros k Hk. now apply lookup_union_r.
Qed.

(** The counts of the content chunks of [process_document] are those of
    their texts. *)
Lemma process_document_content_counts self title content metadata out c :
  process_document self title content metadata = Some out ->
  In c out ->
  chunk_type c = u "content" ->
  word_count c = len (split (text c)) /\ char_count c = len (text c).
Proof.
  intros Hout.
  destruct (process_document_parts self title content metadata out Hout)
    as (chunks0 & cs & -> & Hchunks0 & Hcs).
  intros [Hc | Hc] % in_app_iff Hty.
  - exfalso. destruct Hchunks0 as [-> | [-> _]]; [contradiction|].
    destruct Hc as [<- | []]. simpl in Hty. symmetry in Hty.
    now apply title_is_not_content.
  - destruct Hcs as [-> | Hcs]; [contradiction|].
    apply in_map_iff in Hc as (c0 & <- & Hc0). simpl.
    now destruct (create_chunks_counts self _ cs c0 Hcs Hc0) as (_ & -> & ->).
Qed.

(** Both segmentation strategies return trimmed sentences. *)
Lemma smart_split_sentences_trimmed self txt :
  Forall trimmed (smart_split_sentences self txt).
Proof.
  apply List.Forall_forall. intros s. unfold smart_split_sentences.
  destruct (nlp self) as [sents|].
  - intros (s0 & <- & [_ Hne] % filter_In) % in_map_iff.
    now apply strip_is_trimmed.
  - intros (s0 & <- & [_ Hne] % filter_In) % in_map_iff.
    apply strip_is_trimmed. apply strip_truthy_iff.
    apply replace_nonblank; [reflexivity | now apply strip_truthy_iff].
Qed.

(** Hence the floor holds on every content chunk of [process_document]. *)
Lemma process_document_floor self title content metadata out c :
  process_document self title content metadata = Some out ->
  In c out ->
  chunk_type c = u "content" ->
  min_chunk_size self <= char_count c /\ char_count c = len (text c).
Proof.
  intros Hout.
  destruct (process_document_parts self title content metadata out Hout)
    as (chunks0 & cs & -> & Hchunks0 & Hcs).
  intros [Hc | Hc] % in_app_iff Hty.
  - exfalso. destruct Hchunks0 as [-> | [-> _]]; [contradiction|].
    destruct Hc as [<- | []]. simpl in Hty. symmetry in Hty.
    now apply title_is_not_content.
  - destruct Hcs as [-> | Hcs]; [contradiction|].
    apply in_map_iff in Hc as (c0 & <- & Hc0). simpl.
    destruct (create_chunks_floor self _ cs c0
                (smart_split_sentences_trimmed self (clean_text content)) Hcs Hc0)
      as (_ & Hcc & Hfloor).
    split; [exact Hfloor | exact Hcc].
Qed.

(** The counts of the title chunk: the word count is that of its text, the
    character count is the length of the title as it was passed. *)
Lemma title_chunk_counts title md :
  word_count (title_chunk title md) = len (split (text (title_chunk title md)))
  /\ char_count (title_chunk title md) = len title.
Proof.
  unfold title_chunk, TextChunk_new. simpl. rewrite split_strip. split.
  - now destruct (len (split title) =? 0).
  - destruct title; [reflexivity|]. reflexivity.
Qed.

(** No method call changes [min_chunk_size]. *)
Lemma call_min_chunk_size self m :
  min_chunk_size (call self m) = min_chunk_size self.
Proof. now destruct m. Qed.

(** C10. A processor built by [__init__], whatever [chunk_size] and
    [overlap] it is given and whether spaCy loaded or not, has
    [min_chunk_size = 100], and still has it after any sequence of method
    calls. *)
Theorem min_chunk_size_fixed chunk_size overlap spacy_model ms :
  min_chunk_size (TextProcessor_init chunk_size overlap spacy_model) = 100
  /\ min_chunk_size (calls (TextProcessor_init chunk_size overlap spacy_model) ms)
     = 100.
Proof.
  split; [reflexivity|]. unfold calls.
  generalize (TextProcessor_init chunk_size overlap spacy_model)
             (eq_refl : min_chunk_size
                          (TextProcessor_init chunk_size overlap spacy_model) = 100).
  induction ms as [|m ms IH]; intros self Hself; simpl; [assumption|].
  apply IH. now rewrite call_min_chunk_size.
Qed.

End Pipeline.

(** ** Properties of the keyword classifiers *)

Section Classifiers.

Context `{UnicodeDB}.

(** A category of the table is detected when one of its keywords occurs in
    the lower-cased text. *)
Lemma detected_iff (table : list (str * list str)) (t c : str) :
  In c (List.map fst
          (List.filter (fun ck => existsb (fun keyword => contains keyword t) ck.2)
                       table))
  <-> exists kws k, In (c, kws) table /\ In k kws /\ occurs k t.
Proof.
  rewrite in_map_iff. split.
  - intros ([c' kws] & <- & [Hin Hex] % filter_In). simpl in *.
    apply existsb_exists in Hex as (k & Hk & Hocc).
    exists kws, k. now rewrite <- contains_spec.
  - intros (kws & k & Hin & Hk & Hocc). exists (c, kws). split; [reflexivity|].
    apply filter_In. split; [assumption|]. simpl.
    apply existsb_exists. exists k. now rewrite contains_spec.
Qed.

Lemma NoDup_map_fst_filter {A B} (f : A * B -> bool) (l : list (A * B)) :
  List.NoDup (List.map fst l) -> List.NoDup (List.map fst (List.filter f l)).
Proof.
  induction l as [|x l IH]; simpl; [trivial|].
  intros [Hx Hl] % List.NoDup_cons_iff. destruct (f x); simpl; [|now apply IH].
  apply List.NoDup_cons_iff. split; [|now apply IH].
  intros (y & Hy & [Hin _] % filter_In) % in_map_iff.
  apply Hx. apply in_map_iff. now exists y.
Qed.

Lemma chunk_keywords_init chunk_size overlap spacy_model :
  List.map fst (chunk_keywords (TextProcessor_init chunk_size overlap spacy_model))
  = [u "procedure"; u "definition"; u "obligation"; u "droit"; u "sanction";
     u "aide"].
Proof. reflexivity. Qed.

Lemma six_categories_NoDup :
  List.NoDup [u "procedure"; u "definition"; u "obligation"; u "droit";
              u "sanction"; u "aide"].
Proof.
  repeat (apply List.NoDup_cons;
          [vm_compute; intros Hin; repeat destruct Hin as [Hin | Hin];
           try discriminate Hin; contradiction|]).
  apply List.NoDup_nil.
Qed.

(** C7. On a processor built by [__init__], whose table has the six
    categories, [classify_chunk_content] returns a non-empty list without
    repetition whose elements are exactly the categories of which some
    keyword is a substring of the lower-cased text, or exactly ['general']
    when there is no such category. *)
Theorem classify_chunk_content_spec chunk_size overlap spacy_model txt :
  let self := TextProcessor_init chunk_size overlap spacy_model in
  let matched c :=
    exists kws k, In (c, kws) (chunk_keywords self) /\ In k kws
                  /\ occurs k (lower txt) in
  List.map fst (chunk_keywords self)
  = [u "procedure"; u "definition"; u "obligation"; u "droit"; u "sanction";
     u "aide"]
  /\ classify_chunk_content self txt <> []
  /\ List.NoDup (classify_chunk_content self txt)
  /\ forall c, In c (classify_chunk_content self txt)
               <-> matched c \/ (c = u "general" /\ forall c', ~ matched c').
Proof.
  cbv zeta. split; [reflexivity|].
  unfold classify_chunk_content.
  set (self := TextProcessor_init chunk_size overlap spacy_model).
  set (detected := List.map fst (List.filter _ (chunk_keywords self))).
  assert (Hdet : forall c, In c detected <->
             exists kws k, In (c, kws) (chunk_keywords self) /\ In k kws
                           /\ occurs k (lower txt))
    by (intros c; apply detected_iff).
  assert (Hnd : List.NoDup detected).
  { apply NoDup_map_fst_filter. unfold self. rewrite chunk_keywords_init.
    apply six_categories_NoDup. }
  destruct detected as [|d ds] eqn:Hd; cbn [truthy].
  - split; [discriminate|]. split.
    + apply List.NoDup_cons; [intros [] | apply List.NoDup_nil].
    + intros c. split.
      * intros [<- | []]. right. split; [reflexivity|].
        intros c' Hc'. now apply Hdet in Hc'.
      * intros [Hc | [-> _]]; [now apply Hdet in Hc | now left].
  - split; [discriminate|]. split; [assumption|].
    intros c. split.
    + intros Hc. left. now apply Hdet.
    + intros [Hc | [_ Hnone]]; [now apply Hdet|].
      exfalso. apply (Hnone d). apply Hdet. now left.
Qed.

End Classifiers.

Section DomainClassifier.

Context `{UnicodeDB}.

Import BaseExtractor.

Lemma counts_filter kws t :
  List.NoDup kws ->
  counts (len (List.filter (fun word => contains word t) kws)) kws t.
Proof.
  intros Hnd. exists (List.filter (fun word => contains word t) kws).
  split; [now apply List.NoDup_filter|]. split; [|reflexivity].
  intros k. now rewrite filter_In, contains_spec.
Qed.

Lemma counts_unique n n' kws t : counts n kws t -> counts n' kws t -> n = n'.
Proof.
  intros (h & Hnd & Hh & ->) (h' & Hnd' & Hh' & ->). unfold len. f_equal.
  apply Permutation.Permutation_length.
  apply Permutation.NoDup_Permutation; trivial.
  intros k. now rewrite Hh, Hh'.
Qed.

Lemma domain_keywords_NoDup d kws :
  In (d, kws) keywords -> List.NoDup kws.
Proof.
  intros Hin. unfold keywords in Hin.
  repeat destruct Hin as [Hin | Hin]; try contradiction;
    injection Hin as <- <-;
    repeat (apply List.NoDup_cons;
            [vm_compute; intros Hk; repeat destruct Hk as [Hk | Hk];
             try discriminate Hk; contradiction|]);
    apply List.NoDup_nil.
Qed.

(** C8. [classify_domain] scores each of the three domains, 'juridique',
    'rh' and 'economique' in the order of the table, by the number of its
    distinct keywords that are substrings of the lower-cased text made of the
    title, one space and the first 500 characters of the content. When every
    score is zero it returns 'autre'; otherwise it returns the domain of the
    highest score, the first one in the order of the table when several
    domains reach it. The URL plays no part. *)
Theorem classify_domain_spec title content url :
  let t := lower (title ++ u " " ++ slice_to 500 content) in
  List.map fst keywords = [u "juridique"; u "rh"; u "economique"]
  /\ exists r,
       classify_domain title content url = Some r
       /\ (r = u "autre"
           /\ (forall d kws, In (d, kws) keywords -> counts 0 kws t)
           \/ exists (i : nat) kws n,
               keywords !! i = Some (r, kws) /\ counts n kws t /\ 0 < n
               /\ forall (j : nat) d' kws' n',
                    keywords !! j = Some (d', kws') -> counts n' kws' t ->
                    n' <= n /\ ((j < i)%nat -> n' < n)).
Proof.
  cbv zeta. split; [reflexivity|].
  assert (Hnd : forall d kws, In (d, kws) keywords -> List.NoDup kws)
    by exact domain_keywords_NoDup.
  unfold classify_domain, domain_scores. fold (text_to_analyze title content).
  set (t := text_to_analyze title content).
  unfold keywords in *. cbn [List.map fst snd].
  match goal with
  | |- context [[(_, len (List.filter ?f ?kj)); (_, len (List.filter _ ?kr));
                 (_, len (List.filter _ ?ke))]] =>
      set (sj := len (List.filter f kj)); set (sr := len (List.filter f kr));
      set (se := len (List.filter f ke));
      assert (Cj : counts sj kj t)
        by (apply counts_filter, (Hnd (u "juridique")); now left);
      assert (Cr : counts sr kr t)
        by (apply counts_filter, (Hnd (u "rh")); right; now left);
      assert (Ce : counts se ke t)
        by (apply counts_filter, (Hnd (u "economique")); right; right; now left)
  end.
  assert (Pj : 0 <= sj) by apply len_nonneg.
  assert (Pr : 0 <= sr) by apply len_nonneg.
  assert (Pe : 0 <= se) by apply len_nonneg.
  set (key := fun d : list N => default 0 (get _ d)).
  assert (Hj : key (u "juridique") = sj) by reflexivity.
  assert (Hr : key (u "rh") = sr) by reflexivity.
  assert (He : key (u "economique") = se) by reflexivity.
  clearbody key sj sr se. clear Hnd.
  assert (Hall : forall (j : nat) d' kws' n',
             keywords !! j = Some (d', kws') -> counts n' kws' t ->
             (j = 0%nat /\ n' = sj) \/ (j = 1%nat /\ n' = sr)
             \/ (j = 2%nat /\ n' = se)).
  { intros [|[|[|j]]] d' kws' n' Hlk Hn'; simpl in Hlk; try discriminate Hlk;
      injection Hlk as <- <-.
    - left. split; [reflexivity|]. exact (counts_unique _ _ _ _ Hn' Cj).
    - right; left. split; [reflexivity|]. exact (counts_unique _ _ _ _ Hn' Cr).
    - right; right. split; [reflexivity|]. exact (counts_unique _ _ _ _ Hn' Ce). }
  unfold py_max, max_from.
  rewrite Hr, Hj, !Z.gtb_ltb.
  destruct (Z.ltb_spec sj sr); rewrite ?Hr, ?Hj, ?He, ?Z.gtb_ltb;
    [destruct (Z.ltb_spec sr se) | destruct (Z.ltb_spec sj se)];
    match goal with |- context [0 <? ?m] => destruct (Z.ltb_spec 0 m) end;
    eexists; (split; [reflexivity|]);
    try (left; split; [reflexivity|];
         intros d kws Hin; repeat destruct Hin as [Hin | Hin]; try contradiction;
         injection Hin as <- <-;
         [replace 0 with sj by lia | replace 0 with sr by lia
          | replace 0 with se by lia]; assumption).
  all: right.
  all: match goal with
       | |- context [Some (u "economique", _)] => exists 2%nat; eexists; exists se
       | |- context [Some (u "rh", _)] => exists 1%nat; eexists; exists sr
       | |- context [Some (u "juridique", _)] => exists 0%nat; eexists; exists sj
       end.
  all: split; [reflexivity|]; split; [assumption|]; split; [lia|].
  all: intros j d' kws' n' Hlk Hn'.
  all: destruct (Hall j d' kws' n' Hlk Hn') as [[-> ->] | [[-> ->] | [-> ->]]].
  all: lia.
Qed.

End DomainClassifier.

(** ** The code on the sample inputs *)

Module OnSamples.

Import Latin1 Sample.

(** C1: a sentence of 100 spaces is kept as the last buffer, the test after
    the loop lets it through on the length of the buffer, and the chunk
    returned for it has an empty text and a character count of 0. *)
Lemma size_floor_fails_on_blank_sentence :
  create_chunks_with_overlap default_processor [blank100]
  = Some [the_final_chunk default_processor [] 0]
  /\ text (the_final_chunk default_processor [] 0) = []
  /\ char_count (the_final_chunk default_processor [] 0) = 0
  /\ ~ (forall cs c,
          create_chunks_with_overlap default_processor [blank100] = Some cs ->
          In c cs -> min_chunk_size default_processor <= char_count c).
Proof.
  assert (Hout : create_chunks_with_overlap default_processor [blank100]
                 = Some [the_final_chunk default_processor [] 0])
    by (vm_compute; reflexivity).
  split; [exact Hout|]. split; [reflexivity|]. split; [reflexivity|].
  intros Hall. specialize (Hall _ _ Hout (or_introl eq_refl)).
  vm_compute in Hall. now apply Hall.
Qed.

(** C2: after a chunk of 126 characters is closed, the buffer holds 84
    characters and the carry 22; carry and buffer together reach 107, the
    floor is 100, and no last chunk is returned: the list returned is the
    one chunk closed in the loop, which is not tagged [is_final]. *)
Lemma final_chunk_ignores_carry :
  exists st,
    asm_loop processor150 [sentence126; sentence84] = Some st
    /\ current_chunk st <> []
    /\ len (current_chunk st) = 84
    /\ len (strip (overlap_buffer st ++ u " " ++ current_chunk st)) = 107
    /\ min_chunk_size processor150
       <= len (strip (overlap_buffer st ++ u " " ++ current_chunk st))
    /\ final_chunk processor150 st = None
    /\ create_chunks_with_overlap processor150 [sentence126; sentence84]
       = Some (chunks st)
    /\ List.map (fun c => metadata c !! u "is_final") (chunks st) = [None].
Proof.
  eexists. split; [vm_compute; reflexivity|].
  split; [discriminate|]. split; [vm_compute; reflexivity|].
  split; [vm_compute; reflexivity|]. split; [vm_compute; discriminate|].
  split; [vm_compute; reflexivity|]. split; vm_compute; reflexivity.
Qed.

(** C5: the only chunk returned for one sentence of 114 characters is the
    last chunk, and its metadata has no ['has_numbers'], ['has_dates'] or
    ['complexity']. *)
Lemma final_chunk_lacks_flags :
  create_chunks_with_overlap default_processor [sentence114]
  = Some [the_final_chunk default_processor sentence114 0]
  /\ metadata (the_final_chunk default_processor sentence114 0) !! u "has_numbers"
     = None
  /\ metadata (the_final_chunk default_processor sentence114 0) !! u "has_dates"
     = None
  /\ metadata (the_final_chunk default_processor sentence114 0) !! u "complexity"
     = None
  /\ ~ (forall cs c,
          create_chunks_with_overlap default_processor [sentence114] = Some cs ->
          In c cs -> has_structural_flags c).
Proof.
  assert (Hout : create_chunks_with_overlap default_processor [sentence114]
                 = Some [the_final_chunk default_processor sentence114 0])
    by (vm_compute; reflexivity).
  assert (Hnum : metadata (the_final_chunk default_processor sentence114 0)
                 !! u "has_numbers" = None) by (vm_compute; reflexivity).
  split; [exact Hout|]. split; [exact Hnum|].
  split; [vm_compute; reflexivity|]. split; [vm_compute; reflexivity|].
  intros Hall.
  destruct (Hall _ _ Hout (or_introl eq_refl)) as (_ & [v Hv] & _).
  congruence.
Qed.



(** C3 on a document with a title. *)
Lemma process_document_indices_witness :
  process_document default_processor padded_title document None
  = Some document_chunks
  /\ List.map chunk_index document_chunks = [0; 1]
  /\ chunk_index (title_chunk padded_title ∅) = 0
  /\ head document_chunks = Some (title_chunk padded_title ∅).
Proof.
  assert (Hout : process_document default_processor padded_title document None
                 = Some document_chunks) by (vm_compute; reflexivity).
  split; [exact Hout|].
  destruct (process_document_indices default_processor padded_title document None
              document_chunks Hout) as (Hidx & Htitle & _).
  split; [rewrite Hidx; vm_compute; reflexivity|].
  apply (Htitle (title_chunk padded_title ∅)).
  - left. reflexivity.
  - reflexivity.
Defined.

(** C4: the title ['  Code du travail  '] gives a title chunk whose text has
    15 characters and whose [char_count] is 19, the length of the title
    before trimming. *)
Theorem title_char_count_mismatch :
  exists out c,
    process_document default_processor padded_title document None = Some out
    /\ head out = Some c
    /\ chunk_type c = u "title"
    /\ text c = u "Code du travail"
    /\ len (text c) = 15
    /\ char_count c = 19
    /\ word_count c = len (split (text c)).
Proof.
  exists document_chunks, (title_chunk padded_title ∅).
  split; [vm_compute; reflexivity|]. repeat split.
Qed.

(** C8: for the title ['ressources'] and the content ['humaines'] the code
    analyses ['ressources humaines'], which holds the keyword
    ['ressources humaines'] of ['rh'], and returns ['rh']; title and content
    put end to end give ['ressourceshumaines'], in which no keyword of any
    domain occurs. *)
Lemma classify_domain_joins_with_space :
  BaseExtractor.classify_domain (u "ressources") (u "humaines") [] = Some (u "rh")
  /\ (forall d kws,
        In (d, kws) BaseExtractor.keywords ->
        counts 0 kws (lower (u "ressources" ++ slice_to 500 (u "humaines"))))
  /\ BaseExtractor.classify_domain (u "ressources") (u "humaines") []
     <> Some (u "autre").
Proof.
  assert (Hout : BaseExtractor.classify_domain (u "ressources") (u "humaines") []
                 = Some (u "rh")) by (vm_compute; reflexivity).
  split; [exact Hout|]. split.
  - intros d kws Hin.
    pose proof (counts_filter kws
                  (lower (u "ressources" ++ slice_to 500 (u "humaines")))
                  (domain_keywords_NoDup d kws Hin)) as Hc.
    unfold BaseExtractor.keywords in Hin.
    repeat destruct Hin as [Hin | Hin]; try contradiction;
      injection Hin as <- <-; exact Hc.
  - rewrite Hout. intros E. vm_compute in E. discriminate E.
Qed.

(** C9 on a document whose caller supplies ['sentence_count']. *)
Lemma caller_metadata_precedence_witness :
  process_document default_processor padded_title document (Some caller_metadata)
  = Some merged_chunks
  /\ In merged_chunk merged_chunks
  /\ chunk_type merged_chunk = u "content"
  /\ metadata merged_chunk !! u "sentence_count" = Some (PyInt 99).
Proof.
  assert (Hout : process_document default_processor padded_title document
                   (Some caller_metadata) = Some merged_chunks)
    by (vm_compute; reflexivity).
  assert (Hin : In merged_chunk merged_chunks) by (right; left; reflexivity).
  assert (Hty : chunk_type merged_chunk = u "content") by reflexivity.
  split; [exact Hout|]. split; [exact Hin|]. split; [exact Hty|].
  destruct (caller_metadata_precedence default_processor padded_title document
              caller_metadata merged_chunks merged_chunk Hout Hin Hty)
    as (cs & c0 & _ & _ & _ & Hcaller & _).
  apply Hcaller. reflexivity.
Defined.

End OnSamples.

(** * Further properties of the code *)

(** ** Words, joins and lengths *)

Section WordFacts.

Implicit Types s w acc : list N.

Lemma len_strip_le s : len (strip s) <= len s.
Proof.
  destruct (strip_decomp s) as (t1 & t2 & Hs & _ & _).
  rewrite Hs at 2. rewrite !len_app.
  pose proof (len_nonneg t1). pose proof (len_nonneg t2). lia.
Qed.

Lemma strip_stripped s : stripped (strip s).
Proof.
  destruct (truthy (strip s)) eqn:Hne.
  - right. now apply strip_is_trimmed.
  - left. now apply truthy_false.
Qed.

Lemma stripped_strip s : stripped s -> strip s = s.
Proof. intros [-> | Htr]; [reflexivity | now apply strip_trimmed]. Qed.

Lemma word_inv w : word w <-> w <> [] /\ Forall (fun c => isspace c = false) w.
Proof.
  unfold word, wordb. rewrite andb_true_iff, truthy_true, forallb_forall.
  rewrite List.Forall_forall. split; intros [Hne Hall]; (split; [assumption|]);
    intros c Hc; specialize (Hall c Hc); now apply negb_true_iff.
Qed.

(** Reading the characters of a word moves them to the accumulator. *)
Lemma split_aux_word acc w s :
  Forall (fun c => isspace c = false) w ->
  PyStr.split_aux acc (w ++ s) = PyStr.split_aux (rev w ++ acc) s.
Proof.
  intros Hw. revert acc. induction Hw as [|c w Hc _ IH]; intros acc; [reflexivity|].
  simpl. rewrite Hc, IH. now rewrite <- app_assoc.
Qed.

(** The results of [split] are words. *)
Lemma split_aux_words acc s :
  Forall (fun c => isspace c = false) acc ->
  Forall word (PyStr.split_aux acc s).
Proof.
  revert acc. induction s as [|c s IH]; intros acc Hacc; simpl.
  - destruct acc as [|a acc]; [constructor|]. constructor; [|constructor].
    apply word_inv. split.
    + intros Hnil. apply (f_equal (@length _)) in Hnil.
      rewrite length_rev in Hnil. discriminate Hnil.
    + apply List.Forall_forall. intros x Hx % in_rev.
      exact (proj1 (List.Forall_forall _ _) Hacc x Hx).
  - destruct (isspace c) eqn:Hc.
    + destruct acc as [|a acc]; [apply IH; constructor|].
      constructor; [|apply IH; constructor].
      apply word_inv. split.
      * intros Hnil. apply (f_equal (@length _)) in Hnil.
        rewrite length_rev in Hnil. discriminate Hnil.
      * apply List.Forall_forall. intros x Hx % in_rev.
        exact (proj1 (List.Forall_forall _ _) Hacc x Hx).
    + apply IH. now constructor.
Qed.

Lemma split_words s : Forall word (split s).
Proof. apply split_aux_words. constructor. Qed.

(** [split] undoes [' '.join] on words. *)
Lemma split_join_words (ws : list (list N)) :
  Forall word ws -> split (join (u " ") ws) = ws.
Proof.
  unfold split. induction 1 as [|w ws Hw Hws IH]; [reflexivity|].
  apply word_inv in Hw as [Hne Hall].
  destruct ws as [|w2 ws].
  - assert (E : PyStr.split_aux [] w = PyStr.split_aux (rev w ++ []) []).
    { rewrite <- (split_aux_word [] w []) by assumption. now rewrite app_nil_r. }
    cbn [join]. rewrite E, app_nil_r. simpl.
    destruct (rev w) eqn:Hr.
    + apply (f_equal (@length _)) in Hr. rewrite length_rev in Hr.
      destruct w; [contradiction | discriminate Hr].
    + now rewrite <- Hr, rev_involutive.
  - change (join (u " ") (w :: w2 :: ws))
      with (w ++ u " " ++ join (u " ") (w2 :: ws)).
    rewrite split_aux_word by assumption. rewrite app_nil_r.
    change (u " " ++ join (u " ") (w2 :: ws))
      with (SPACE :: join (u " ") (w2 :: ws)).
    cbn [PyStr.split_aux]. change (isspace SPACE) with true. cbv iota.
    destruct (rev w) eqn:Hr.
    + apply (f_equal (@length _)) in Hr. rewrite length_rev in Hr.
      destruct w; [contradiction | discriminate Hr].
    + rewrite <- Hr, rev_involutive. now rewrite IH.
Qed.

(** Joining the words of a text by single spaces does not lengthen it. *)
Lemma len_join_split_aux acc s :
  len (join (u " ") (PyStr.split_aux acc s)) <= len acc + len s.
Proof.
  revert acc. induction s as [|c s IH]; intros acc; simpl.
  - destruct acc; simpl; [unfold len; simpl; lia|].
    unfold len. simpl. rewrite length_app, length_rev. simpl. lia.
  - destruct (isspace c).
    + destruct acc as [|a acc].
      * specialize (IH []). unfold len in *. simpl in *. lia.
      * specialize (IH []).
        destruct (PyStr.split_aux [] s) as [|w ws] eqn:Hs.
        -- unfold len in *. simpl. rewrite length_app, length_rev. simpl in *. lia.
        -- change (join (u " ") (rev (a :: acc) :: w :: ws))
             with (rev (a :: acc) ++ u " " ++ join (u " ") (w :: ws)).
           rewrite !len_app. unfold len in *.
           rewrite length_rev. simpl in *. lia.
    + specialize (IH (c :: acc)). unfold len in *. simpl in *. lia.
Qed.

Lemma len_join_split s : len (join (u " ") (split s)) <= len s.
Proof.
  unfold split. pose proof (len_join_split_aux [] s) as Hle.
  change (len (@nil N)) with 0 in Hle. lia.
Qed.

Lemma len_join_drop sep (ws : list (list N)) n :
  len (join sep (drop n ws)) <= len (join sep ws).
Proof.
  revert n. induction ws as [|w ws IH]; intros n.
  - now rewrite drop_nil.
  - destruct n as [|n]; [simpl; lia|]. simpl drop.
    specialize (IH n). destruct ws as [|w2 ws].
    + rewrite drop_nil in *. unfold len. simpl. lia.
    + change (join sep (w :: w2 :: ws)) with (w ++ sep ++ join sep (w2 :: ws)).
      rewrite !len_app. pose proof (len_nonneg w). pose proof (len_nonneg sep). lia.
Qed.

End WordFacts.

(** ** The division through a float *)

Section FloatFacts.

Lemma round_half_even_bounds a b :
  0 < b -> 2 * a - b <= 2 * b * round_half_even a b <= 2 * a + b.
Proof.
  intros Hb. unfold round_half_even. cbv zeta.
  pose proof (Z.div_mod a b ltac:(lia)) as Ha.
  pose proof (Z.mod_pos_bound a b Hb) as Hr.
  set (q := a / b) in *. set (r := a mod b) in *. clearbody q r.
  destruct (Z.ltb_spec (2 * r) b); [nia|].
  destruct (Z.ltb_spec b (2 * r)); [nia|].
  destruct (Z.even q); nia.
Qed.

(** Below 10 * 2^50 the float is near enough to the quotient for [int] to
    return the quotient itself. *)
Lemma int_tenth_nonneg_exact a :
  0 <= a < 10 * 2 ^ 50 -> int_tenth_nonneg a = Some (a / 10).
Proof.
  intros [Hlo Hhi]. unfold int_tenth_nonneg. cbv zeta.
  destruct (Z.eqb_spec (a / 10) 0) as [-> | Hq]; [reflexivity|].
  pose proof (Z.div_mod a 10 ltac:(lia)) as Ha.
  pose proof (Z.mod_pos_bound a 10 ltac:(lia)) as Hr.
  assert (Hq1 : 0 < a / 10) by (pose proof (Z.div_pos a 10); lia).
  assert (Hq2 : a / 10 < 2 ^ 50) by (apply Z.div_lt_upper_bound; lia).
  assert (HL : Z.log2 (a / 10) < 50) by (apply Z.log2_lt_pow2; assumption).
  pose proof (Z.log2_nonneg (a / 10)) as HL0.
  destruct (Z.geb_spec (Z.log2 (a / 10) - 52) 0) as [Hge | _]; [lia|].
  set (t := - (Z.log2 (a / 10) - 52)).
  assert (Ht : 3 <= t) by (unfold t; lia).
  assert (HP : 2 ^ 3 <= 2 ^ t) by (apply Z.pow_le_mono_r; lia).
  change (2 ^ 3) with 8 in HP.
  pose proof (round_half_even_bounds (a * 2 ^ t) 10 ltac:(lia)) as Hm.
  set (m := round_half_even (a * 2 ^ t) 10) in *. clearbody m.
  set (P := 2 ^ t) in *. clearbody P.
  set (q := a / 10) in *. set (r := a mod 10) in *. clearbody q r.
  f_equal. symmetry. apply (Z.div_unique m P q (m - P * q)); nia.
Qed.

Lemma int_tenth_exact a :
  Z.abs a < 10 * 2 ^ 50 -> int_tenth a = Some (a ÷ 10).
Proof.
  intros Ha. unfold int_tenth. destruct (Z.ltb_spec a 0) as [Hneg | Hpos].
  - rewrite int_tenth_nonneg_exact by lia. f_equal.
    rewrite <- (Z.opp_involutive a) at 2.
    rewrite Z.quot_opp_l by lia. f_equal.
    symmetry. apply Z.quot_div_nonneg; lia.
  - rewrite int_tenth_nonneg_exact by lia. f_equal.
    symmetry. apply Z.quot_div_nonneg; lia.
Qed.

End FloatFacts.

(** ** More on the chunk assembler *)

Section AssemblerMore.

Context `{UnicodeDB}.

(** Each chunk of the loop and the buffer, when it is not empty, stand for
    a sentence read so far. *)
Lemma asm_loop_count self ss st :
  asm_loop self ss = Some st ->
  (length (chunks st) + (if truthy (current_chunk st) then 1 else 0)
   <= length ss)%nat.
Proof.
  revert ss st.
  apply (asm_loop_ind self
           (fun ss st =>
              (length (chunks st) + (if truthy (current_chunk st) then 1 else 0)
               <= length ss)%nat)); [simpl; lia|].
  intros ss s st st' _ IH Hs. rewrite length_app. simpl.
  destruct (asm_step_chunks self st s st' Hs) as [[-> _] | (_ & Htr & -> & _)].
  - destruct (truthy (current_chunk st')); destruct (truthy (current_chunk st)); lia.
  - rewrite Htr in IH. rewrite length_app. simpl.
    destruct (truthy (current_chunk st')); lia.
Qed.

(** X1. [create_chunks_with_overlap] never returns more chunks than it was
    given sentences. *)
Theorem chunk_count_bound self ss cs :
  create_chunks_with_overlap self ss = Some cs ->
  (length cs <= length ss)%nat.
Proof.
  intros (st & Hst & ->) % create_chunks_Some.
  pose proof (asm_loop_count self ss st Hst) as Hcount.
  unfold assembled.
  destruct (final_chunk self st) as [c|] eqn:Hfin.
  - apply final_chunk_Some in Hfin as (Hne & _).
    apply truthy_true in Hne. rewrite Hne in Hcount.
    rewrite length_app. simpl. lia.
  - destruct (truthy (current_chunk st)); lia.
Qed.

(** The carry is never longer than the buffer it is taken from. *)
Lemma next_overlap_len self cur carry :
  next_overlap self cur = Some carry -> len carry <= len cur.
Proof.
  intros [-> | [k ->]] % next_overlap_trailing; [lia|].
  pose proof (len_join_drop (u " ") (split cur) k).
  pose proof (len_join_split cur). lia.
Qed.

(** X2. When no sentence is longer than [chunk_size], no chunk is longer
    than twice [chunk_size] plus one: the buffer and the carry each stay
    within [chunk_size]. *)
Theorem chunk_length_bound self ss cs c :
  0 <= chunk_size self ->
  Forall (fun s => len s <= chunk_size self) ss ->
  create_chunks_with_overlap self ss = Some cs ->
  In c cs ->
  len (text c) <= 2 * chunk_size self + 1.
Proof.
  intros Hcs Hss Hout Hc.
  destruct (create_chunks_In self ss cs c Hout Hc) as (st & Hst & Hin).
  assert (Hinv : len (current_chunk st) <= chunk_size self
                 /\ len (overlap_buffer st) <= chunk_size self
                 /\ Forall (fun c => len (text c) <= 2 * chunk_size self + 1)
                           (chunks st)).
  { revert Hst.
    apply (asm_run_invariant self
             (fun st => len (current_chunk st) <= chunk_size self
                        /\ len (overlap_buffer st) <= chunk_size self
                        /\ Forall (fun c => len (text c) <= 2 * chunk_size self + 1)
                                  (chunks st))).
    - repeat split; [exact Hcs | exact Hcs | constructor].
    - intros st1 s st2 Hs_in (Hcur & Hov & Hchunks) Hstep.
      assert (Hs : len s <= chunk_size self)
        by exact (proj1 (List.Forall_forall _ _) Hss s Hs_in).
      destruct (asm_step_inv self st1 s st2 Hstep)
        as [(_ & _ & -> & Hnext & Hch) | (-> & _ & -> & Hcases)].
      + apply next_overlap_len in Hnext.
        split; [exact Hs|]. split; [lia|]. cbv zeta in Hch.
        destruct Hch as [(_ & -> & _) | (_ & -> & _)]; [|exact Hchunks].
        apply Forall_app. split; [assumption|]. constructor; [|constructor].
        change (len (strip (overlap_buffer st1 ++ u " " ++ current_chunk st1))
                <= 2 * chunk_size self + 1).
        pose proof (len_strip_le (overlap_buffer st1 ++ u " " ++ current_chunk st1))
          as Hle.
        rewrite !len_app in Hle. change (len (u " ")) with 1 in Hle. lia.
      + split; [|split; assumption].
        destruct Hcases as [(_ & -> & Hshort) | (_ & ->)]; assumption. }
  destruct Hinv as (Hcur & Hov & Hchunks).
  destruct Hin as [Hloop | Hfin].
  - exact (proj1 (List.Forall_forall _ _) Hchunks c Hloop).
  - apply final_chunk_Some in Hfin as (_ & _ & ->).
    change (len (strip (overlap_buffer st ++ u " " ++ current_chunk st))
            <= 2 * chunk_size self + 1).
    pose proof (len_strip_le (overlap_buffer st ++ u " " ++ current_chunk st))
      as Hle.
    rewrite !len_app in Hle. change (len (u " ")) with 1 in Hle. lia.
Qed.

(** X3. The carry that [next_overlap] prepares when a buffer is closed is
    made of trailing words of that buffer: its words are the words of the
    buffer from some word on. When the buffer has more than 10 words and
    [overlap] is at least 10 and below 10 * 2^50, where the division
    through a float is exact, the carry is there and is made of the last
    [overlap/10] words of the buffer, joined by single spaces. *)
Theorem carry_is_trailing_words self cur :
  (forall carry,
      next_overlap self cur = Some carry ->
      exists n, split carry = drop n (split cur))
  /\ (10 < len (split cur) -> 10 <= overlap self < 10 * 2 ^ 50 ->
      next_overlap self cur
      = Some (join (u " ")
                (drop (length (split cur) - Z.to_nat (overlap self ÷ 10))
                      (split cur)))).
Proof.
  split.
  - intros carry [-> | [k ->]] % next_overlap_trailing; [now exists 0%nat|].
    exists k. apply split_join_words. apply Forall_drop. apply split_words.
  - intros Hwords Hov. unfold next_overlap. cbv zeta.
    rewrite (proj2 (Z.gtb_lt _ _) Hwords).
    rewrite int_tenth_exact by lia. do 2 f_equal. unfold slice_from.
    assert (Hk : 1 <= overlap self ÷ 10)
      by (apply Z.quot_le_lower_bound; lia).
    destruct (Z.ltb_spec (- (overlap self ÷ 10)) 0); [|lia].
    f_equal. unfold len. lia.
Qed.

(** X4. With [overlap] between -9 and 9, [overlap=0] included,
    [int(self.overlap/10)] is 0 and the slice [words[-0:]] is the whole
    list: the iteration that closes a buffer of more than 10 words does not
    raise and carries the buffer over whole, its words joined by single
    spaces, into the next chunk. *)
Theorem small_overlap_carries_whole_buffer self st s :
  -10 < overlap self < 10 ->
  truthy (current_chunk st) = true ->
  chunk_size self < len (current_chunk st ++ u " " ++ s) ->
  10 < len (split (current_chunk st)) ->
  exists st',
    asm_step self st s = Some st'
    /\ overlap_buffer st' = join (u " ") (split (current_chunk st)).
Proof.
  intros Hov Hcur Hlong Hwords.
  assert (Hnext : next_overlap self (current_chunk st)
                  = Some (join (u " ") (split (current_chunk st)))).
  { unfold next_overlap. cbv zeta. rewrite (proj2 (Z.gtb_lt _ _) Hwords).
    rewrite int_tenth_exact by lia.
    assert (Hk : overlap self ÷ 10 = 0) by (apply Z.quot_small_iff; lia).
    rewrite Hk. unfold slice_from. change (- 0 <? 0) with false. cbv iota.
    rewrite Z.min_l by apply len_nonneg. reflexivity. }
  unfold asm_step. cbv zeta. rewrite Hcur.
  rewrite (proj2 (Z.gtb_lt _ _) Hlong), Hnext. cbn [andb].
  eexists. split; reflexivity.
Qed.

End AssemblerMore.

(** ** The matcher *)

Section MatcherFacts.

Lemma mt_rep r lo hi prev s :
  Re.mt (Re.Rep r lo hi) prev s = rep_of (Re.mt r) (S (length s)) lo hi prev s.
Proof. reflexivity. Qed.

Lemma rep_of_sound step :
  (forall prev s m rest, In (m, rest) (step prev s) -> s = m ++ rest) ->
  forall fuel lo hi prev s m rest,
    In (m, rest) (rep_of step fuel lo hi prev s) -> s = m ++ rest.
Proof.
  intros Hstep. induction fuel as [|fuel IHf]; intros lo hi prev s m rest Hin.
  - destruct lo; destruct hi as [[|h]|]; simpl in Hin;
      try destruct Hin as [[= <- <-] | []]; try destruct Hin; reflexivity.
  - assert (Hstop : In (m, rest) (match lo with O => [([], s)] | S _ => [] end)
                    -> s = m ++ rest).
    { destruct lo; simpl; [intros [[= <- <-] | []]; reflexivity | intros []]. }
    destruct hi as [[|h]|]; [exact (Hstop Hin)| |].
    + cbn [rep_of] in Hin.
      apply in_app_or in Hin as [Hin | Hin]; [|exact (Hstop Hin)].
      apply in_flat_map in Hin as ([m1 rest1] & H1 & Hin). cbn [fst snd] in Hin.
      destruct m1 as [|c m1]; [destruct Hin|].
      apply in_map_iff in Hin as ([m2 rest2] & [= <- <-] & H2).
      apply Hstep in H1. apply IHf in H2. subst. now rewrite app_assoc.
    + cbn [rep_of] in Hin.
      apply in_app_or in Hin as [Hin | Hin]; [|exact (Hstop Hin)].
      apply in_flat_map in Hin as ([m1 rest1] & H1 & Hin). cbn [fst snd] in Hin.
      destruct m1 as [|c m1]; [destruct Hin|].
      apply in_map_iff in Hin as ([m2 rest2] & [= <- <-] & H2).
      apply Hstep in H1. apply IHf in H2. subst. now rewrite app_assoc.
Qed.

(** A match is a prefix of the text, and what is left is the rest. *)
Lemma mt_sound r : forall prev s m rest,
  In (m, rest) (Re.mt r prev s) -> s = m ++ rest.
Proof.
  induction r as [|p|r1 IH1 r2 IH2|r1 IH1 r2 IH2|r IH lo hi|w];
    intros prev s m rest Hin.
  - destruct Hin as [[= <- <-] | []]. reflexivity.
  - simpl in Hin. destruct s as [|c s]; [destruct Hin|].
    destruct (p c); [|destruct Hin]. destruct Hin as [[= <- <-] | []].
    reflexivity.
  - simpl in Hin. apply in_flat_map in Hin as ([m1 rest1] & H1 & Hin).
    apply in_map_iff in Hin as ([m2 rest2] & [= <- <-] & H2).
    apply IH1 in H1. apply IH2 in H2. simpl in *. subst.
    now rewrite app_assoc.
  - simpl in Hin. apply in_app_or in Hin as [Hin | Hin]; eauto.
  - rewrite mt_rep in Hin. now apply (rep_of_sound (Re.mt r) IH) in Hin.
  - simpl in Hin. destruct (xorb _ _); [|destruct Hin].
    destruct Hin as [[= <- <-] | []]. reflexivity.
Qed.

Lemma mt_head_sound r prev s m rest tl :
  Re.mt r prev s = (m, rest) :: tl -> s = m ++ rest.
Proof. intros Hmt. apply (mt_sound r prev). rewrite Hmt. now left. Qed.

(** What [re.sub] writes is made of what it copies and of replacements. *)
Lemma sub_aux_Forall (Q : N -> Prop) r repl skip prev s :
  (forall m, Forall Q m -> Forall Q (repl m)) ->
  Forall Q s -> Forall Q (Re.sub_aux r repl skip prev s).
Proof.
  intros Hrepl. revert skip prev.
  induction s as [|c s IH]; intros skip prev Hs; [constructor|].
  pose proof Hs as Hcs. apply List.Forall_cons_iff in Hcs as [Hc Hs'].
  destruct skip as [|k]; simpl; [|now apply IH].
  destruct (Re.mt r prev (c :: s)) as [|[[|x m] rest] tl] eqn:Hmt.
  - constructor; [assumption | now apply IH].
  - constructor; [assumption | now apply IH].
  - apply Forall_app. split; [|now apply IH].
    apply Hrepl. apply mt_head_sound in Hmt. rewrite Hmt in Hs.
    now apply Forall_app in Hs as [Hm _].
Qed.

(** A replacement at most [k] times as long as its match makes the text at
    most [k] times as long. *)
Lemma sub_aux_len (k : Z) r repl skip prev s :
  1 <= k ->
  (forall m, m <> [] -> len (repl m) <= k * len m) ->
  (skip <= length s)%nat ->
  len (Re.sub_aux r repl skip prev s) <= k * (len s - Z.of_nat skip).
Proof.
  intros Hk Hrepl. revert skip prev.
  induction s as [|c s IH]; intros skip prev Hskip.
  - simpl in *. unfold len. simpl. lia.
  - destruct skip as [|n]; simpl.
    + destruct (Re.mt r prev (c :: s)) as [|[[|x m] rest] tl] eqn:Hmt.
      * specialize (IH 0%nat (Some c) ltac:(lia)). unfold len in *. simpl in *. lia.
      * specialize (IH 0%nat (Some c) ltac:(lia)). unfold len in *. simpl in *. lia.
      * pose proof (mt_head_sound _ _ _ _ _ _ Hmt) as Hs.
        apply (f_equal (@length _)) in Hs. rewrite length_app in Hs.
        simpl in Hs.
        assert (Hm : (length m - 0 <= length s)%nat) by lia.
        specialize (IH (length m - 0)%nat (Some c) Hm).
        specialize (Hrepl (x :: m) ltac:(discriminate)).
        rewrite len_app. unfold len in *. simpl in *. nia.
    + specialize (IH n (Some c) ltac:(simpl in Hskip; lia)).
      unfold len in *. simpl in *. lia.
Qed.

Lemma sub_len (k : Z) r repl s :
  1 <= k ->
  (forall m, m <> [] -> len (repl m) <= k * len m) ->
  len (Re.sub r repl s) <= k * len s.
Proof.
  intros Hk Hrepl. unfold Re.sub.
  pose proof (sub_aux_len k r repl 0 None s Hk Hrepl ltac:(lia)). lia.
Qed.

(** A pattern that starts with a character absent from the text changes
    nothing. *)
Lemma sub_aux_absent c0 r2 repl prev s :
  Forall (fun c => c <> c0) s ->
  Re.sub_aux (Re.Seq (Re.Chr c0) r2) repl 0 prev s = s.
Proof.
  revert prev. induction s as [|c s IH]; intros prev Hs; [reflexivity|].
  apply List.Forall_cons_iff in Hs as [Hc Hs]. simpl.
  destruct (N.eqb_spec c0 c) as [-> | _]; [contradiction|].
  simpl. now rewrite IH.
Qed.

(** [\s*] always matches, and [\s+] matches at a whitespace character. *)
Lemma mt_star_nonempty r prev s : Re.mt (Re.Star r) prev s <> [].
Proof.
  unfold Re.Star. simpl. intros Hnil.
  apply (f_equal (@length _)) in Hnil. rewrite length_app in Hnil.
  simpl in Hnil. lia.
Qed.

Lemma mt_plus_ws_at_space prev c s :
  isspace c = true ->
  exists m rest tl, Re.mt (Re.Plus (Re.Cls isspace)) prev (c :: s)
                    = (c :: m, rest) :: tl.
Proof.
  intros Hc.
  assert (E : Re.mt (Re.Plus (Re.Cls isspace)) prev (c :: s)
              = List.map (Re.glue [c])
                         (Re.mt (Re.Star (Re.Cls isspace)) (Some c) s) ++ []).
  { unfold Re.Plus, Re.Star. cbn [Re.mt length flat_map]. rewrite Hc.
    cbn [flat_map fst snd]. rewrite app_nil_r. reflexivity. }
  rewrite E, app_nil_r.
  destruct (Re.mt (Re.Star (Re.Cls isspace)) (Some c) s) as [|[m rest] tl] eqn:Hmt.
  - now apply mt_star_nonempty in Hmt.
  - now exists m, rest, (List.map (Re.glue [c]) tl).
Qed.

End MatcherFacts.

(** ** [TextProcessor.clean_text] *)

Section CleanTextFacts.

Context `{UnicodeDB}.

Lemma replace_char a b s :
  replace [a] [b] s = List.map (fun c => if (a =? c)%N then b else c) s.
Proof.
  unfold replace. induction s as [|c s IH]; [reflexivity|].
  cbn [replace_aux is_prefix length]. rewrite andb_true_r.
  change (1 - 1)%nat with 0%nat. cbn [List.map]. rewrite IH.
  now destruct (a =? c)%N.
Qed.

Lemma plain_spaces_replace_char a b s :
  (isspace b = true -> b = SPACE) ->
  plain_spaces s -> plain_spaces (replace [a] [b] s).
Proof.
  intros Hb Hs. rewrite replace_char. unfold plain_spaces in *.
  induction Hs as [|c s Hc _ IH]; simpl; constructor; trivial.
  now destruct (a =? c)%N.
Qed.

Lemma plain_spaces_strip s : plain_spaces s -> plain_spaces (strip s).
Proof.
  intros Hs. destruct (strip_decomp s) as (t1 & t2 & E & _ & _).
  unfold plain_spaces in *. rewrite E in Hs.
  apply Forall_app in Hs as [_ Hs]. now apply Forall_app in Hs as [Hs _].
Qed.

(** After [re.sub(r'\s+', ' ', text)] the only whitespace is the space. *)
Lemma sub_spaces_plain skip prev s :
  plain_spaces (Re.sub_aux (Re.Plus ws) (fun _ => u " ") skip prev s).
Proof.
  unfold plain_spaces. revert skip prev.
  induction s as [|c s IH]; intros skip prev; [constructor|].
  destruct skip as [|k]; cbn [Re.sub_aux]; [|apply IH].
  destruct (isspace c) eqn:Hc.
  - destruct (mt_plus_ws_at_space prev c s Hc) as (m & rest & tl & Hmt).
    unfold ws. rewrite Hmt. constructor; [reflexivity | apply IH].
  - destruct (Re.mt (Re.Plus ws) prev (c :: s)) as [|[[|x m] rest] tl].
    + constructor; [congruence | apply IH].
    + constructor; [congruence | apply IH].
    + constructor; [reflexivity | apply IH].
Qed.

Lemma plain_spaces_no_newline s : plain_spaces s -> Forall (fun c => c <> 10%N) s.
Proof.
  unfold plain_spaces. apply List.Forall_impl. intros c Hc ->.
  specialize (Hc eq_refl). discriminate Hc.
Qed.

Lemma clean_text_plain t : plain_spaces (clean_text t).
Proof.
  unfold clean_text. destruct (truthy t); [|constructor]. simpl negb. cbv iota.
  apply plain_spaces_strip.
  apply sub_aux_Forall.
  { intros m Hm. apply Forall_app. split; [|now constructor].
    destruct m; [constructor|]. apply List.Forall_cons_iff in Hm as [Hc _].
    now constructor. }
  apply sub_aux_Forall.
  { intros m Hm. unfold last_char. destruct (last m) as [d|] eqn:Hd; [|constructor].
    constructor; [|constructor]. apply last_Some in Hd as [m' ->].
    apply Forall_app in Hm as [_ Hm]. now apply List.Forall_cons_iff in Hm as [Hd _]. }
  do 4 (apply plain_spaces_replace_char;
        [intros Hb; vm_compute in Hb; first [reflexivity | discriminate Hb]|]).
  unfold Re.sub. rewrite sub_aux_absent.
  - apply sub_spaces_plain.
  - apply plain_spaces_no_newline, sub_spaces_plain.
Qed.

Lemma len_replace_char a b s : len (replace [a] [b] s) = len s.
Proof. rewrite replace_char. unfold len. now rewrite length_map. Qed.

Lemma clean_text_len t : len (clean_text t) <= 2 * len t.
Proof.
  unfold clean_text. destruct (truthy t); [|unfold len; simpl; lia].
  simpl negb. cbv iota.
  eapply Z.le_trans; [apply len_strip_le|].
  eapply Z.le_trans.
  { apply (sub_len 2); [lia|]. intros m Hm. destruct m; [contradiction|].
    unfold len. simpl. lia. }
  apply Z.mul_le_mono_nonneg_l; [lia|].
  eapply Z.le_trans.
  { apply (sub_len 1); [lia|]. intros m Hm. unfold last_char.
    destruct (last m); destruct m; try contradiction; unfold len; simpl; lia. }
  rewrite Z.mul_1_l.
  change (u "'") with [39%N]. change (u "-") with [45%N].
  change (u " ") with [32%N] at 1.
  rewrite !len_replace_char.
  unfold Re.sub. rewrite sub_aux_absent
    by apply plain_spaces_no_newline, sub_spaces_plain.
  pose proof (sub_len 1 (Re.Plus ws) (fun _ => u " ") t ltac:(lia)) as Hle.
  unfold Re.sub in Hle. rewrite Z.mul_1_l in Hle. apply Hle.
  intros m Hm. destruct m; [contradiction|]. unfold len. simpl. lia.
Qed.

(** X5. The text returned by [clean_text] is empty or has neither leading
    nor trailing whitespace, and the only whitespace character in it is the
    space U+0020: no newline, tab or no-break space is left. *)
Theorem clean_text_normal_form t :
  stripped (clean_text t) /\ plain_spaces (clean_text t).
Proof.
  split; [|apply clean_text_plain].
  unfold clean_text. destruct (truthy t); [apply strip_stripped | now left].
Qed.

(** X6. Cleaning at most doubles the length of a text (a space is written
    after each punctuation mark), so [process_document] returns no chunk at
    all, not even the title chunk, for a content shorter than half of
    [min_chunk_size]. *)
Theorem short_content_gives_nothing self title content metadata :
  2 * len content < min_chunk_size self ->
  len (clean_text content) <= 2 * len content
  /\ process_document self title content metadata = Some [].
Proof.
  intros Hshort. pose proof (clean_text_len content) as Hlen.
  split; [exact Hlen|].
  unfold process_document, process_document_run.
  rewrite (proj2 (Z.ltb_lt _ _)) by lia. reflexivity.
Qed.

End CleanTextFacts.

(** ** More on [process_document] *)

Section PipelineMore.

Context `{UnicodeDB}.

Lemma classify_chunk_content_nonempty self t : classify_chunk_content self t <> [].
Proof.
  unfold classify_chunk_content.
  destruct (List.map fst _) eqn:Hd; simpl; discriminate.
Qed.

Lemma create_chunks_keywords self ss cs c :
  create_chunks_with_overlap self ss = Some cs ->
  In c cs ->
  keywords c = classify_chunk_content self (text c).
Proof.
  intros Hcs Hc.
  destruct (create_chunks_In self ss cs c Hcs Hc) as (st & Hst & [Hloop | Hfin]).
  - pose proof (asm_loop_closed self ss st Hst) as Hall.
    destruct (proj1 (List.Forall_forall _ _) Hall c Hloop) as (t & i & _ & ->).
    reflexivity.
  - apply final_chunk_Some in Hfin as (_ & _ & ->). reflexivity.
Qed.

(** X7. When [min_chunk_size] is at least 1, as [__init__] sets it, every
    chunk returned by [process_document] has a text that is not empty and
    has no leading or trailing whitespace, a non-empty list of keywords, and
    the type ['title'] or ['content']. *)
Theorem chunks_are_well_formed self title content metadata out c :
  1 <= min_chunk_size self ->
  process_document self title content metadata = Some out ->
  In c out ->
  trimmed (text c) /\ keywords c <> []
  /\ (chunk_type c = u "title" \/ chunk_type c = u "content").
Proof.
  intros Hmin Hout.
  destruct (process_document_parts self title content metadata out Hout)
    as (chunks0 & cs & -> & Hchunks0 & Hcs).
  intros [Hc | Hc] % in_app_iff.
  - destruct Hchunks0 as [-> | [-> Hlen]]; [contradiction|].
    destruct Hc as [<- | []]. simpl. split; [|split; [discriminate | now left]].
    apply strip_is_trimmed. apply truthy_true. intros Hnil.
    rewrite Hnil in Hlen. discriminate Hlen.
  - destruct Hcs as [-> | Hcs]; [contradiction|].
    apply in_map_iff in Hc as (c0 & <- & Hc0). simpl.
    pose proof (smart_split_sentences_trimmed self (clean_text content)) as Hss.
    destruct (create_chunks_floor self _ cs c0 Hss Hcs Hc0) as (Hty & Hcc & Hfloor).
    split; [|split; [|now right]].
    + destruct (create_chunks_whole_sentences self _ cs c0 Hcs Hc0)
        as (carry & i & n & _ & _ & _ & Ht).
      rewrite Ht. apply strip_is_trimmed. apply truthy_true. intros Hnil.
      rewrite <- Ht in Hnil. rewrite Hcc, Hnil in Hfloor.
      change (len (@nil N)) with 0 in Hfloor. lia.
    + rewrite (create_chunks_keywords self _ cs c0 Hcs Hc0).
      apply classify_chunk_content_nonempty.
Qed.

(** X8. In the list returned by [process_document], whatever the title, the
    content and the metadata, every content chunk has a [char_count] that is
    the length of its text and is at least [min_chunk_size]. *)
Theorem content_chunks_reach_floor self title content metadata out c :
  process_document self title content metadata = Some out ->
  In c out ->
  chunk_type c = u "content" ->
  min_chunk_size self <= char_count c /\ char_count c = len (text c).
Proof. exact (process_document_floor self title content metadata out c). Qed.

(** X9. Under both strategies, with spaCy and with the regular expressions,
    every sentence returned by [smart_split_sentences] is not empty and has
    neither leading nor trailing whitespace. *)
Theorem sentences_are_trimmed self txt s :
  In s (smart_split_sentences self txt) -> trimmed s.
Proof.
  exact (proj1 (List.Forall_forall _ _) (smart_split_sentences_trimmed self txt) s).
Qed.

(** X10. A title that went through [clean_text] of the extractors, as the
    titles of the extracted documents do, has no whitespace to trim: every
    chunk that [process_document] returns for it, the title chunk included,
    has [char_count] equal to the length of its text and [word_count] equal
    to the number of words of its text. *)
Theorem extracted_title_counts self raw_title content metadata out c :
  process_document self (ExtractorText.clean_text raw_title) content metadata
  = Some out ->
  In c out ->
  char_count c = len (text c) /\ word_count c = len (split (text c)).
Proof.
  set (title := ExtractorText.clean_text raw_title).
  assert (Hst : strip title = title).
  { apply stripped_strip. unfold title, ExtractorText.clean_text.
    destruct (truthy raw_title); [apply strip_stripped | now left]. }
  intros Hout.
  destruct (process_document_parts self title content metadata out Hout)
    as (chunks0 & cs & -> & Hchunks0 & Hcs).
  intros [Hc | Hc] % in_app_iff.
  - destruct Hchunks0 as [-> | [-> Hlen]]; [contradiction|].
    destruct Hc as [<- | []].
    destruct (title_chunk_counts title
                (match metadata with Some m => m | None => ∅ end)) as [Hw Hcc].
    split; [|exact Hw]. rewrite Hcc. simpl. now rewrite Hst.
  - destruct Hcs as [-> | Hcs]; [contradiction|].
    apply in_map_iff in Hc as (c0 & <- & Hc0). simpl.
    destruct (create_chunks_counts self _ cs c0 Hcs Hc0) as (_ & -> & ->).
    now split.
Qed.

End PipelineMore.

(** ** [BaseExtractor.clean_text] *)

Section ExtractorTextFacts.

Lemma split_aux_chars acc s w c :
  In w (PyStr.split_aux acc s) -> In c w -> In c acc \/ In c s.
Proof.
  revert acc. induction s as [|x s IH]; intros acc Hw Hc; simpl in Hw.
  - destruct acc as [|a acc]; [destruct Hw|].
    destruct Hw as [<- | []]. left. now apply in_rev.
  - destruct (isspace x).
    + destruct acc as [|a acc].
      * destruct (IH [] Hw Hc) as [[] | Hs]. right. now right.
      * destruct Hw as [<- | Hw]; [left; now apply in_rev|].
        destruct (IH [] Hw Hc) as [[] | Hs]. right. now right.
    + destruct (IH (x :: acc) Hw Hc) as [[-> | Ha] | Hs].
      * right. now left.
      * now left.
      * right. now right.
Qed.

Lemma join_chars sep (ws : list (list N)) c :
  In c (join sep ws) -> In c sep \/ exists w, In w ws /\ In c w.
Proof.
  induction ws as [|w ws IH]; [intros []|].
  destruct ws as [|w2 ws].
  - intros Hc. right. exists w. split; [now left | exact Hc].
  - change (join sep (w :: w2 :: ws)) with (w ++ sep ++ join sep (w2 :: ws)).
    intros [Hc | [Hc | Hc] % in_app_or] % in_app_or.
    + right. exists w. split; [now left | exact Hc].
    + now left.
    + destruct (IH Hc) as [Hsep | (w' & Hw' & Hcw)]; [now left|].
      right. exists w'. split; [now right | exact Hcw].
Qed.

(** The characters of [' '.join(text.split())]. *)
Lemma join_split_chars s c :
  In c (join (u " ") (split s)) -> c = SPACE \/ (In c s /\ isspace c = false).
Proof.
  intros [[<- | []] | (w & Hw & Hc)] % join_chars; [now left|]. right.
  destruct (split_aux_chars [] s w c Hw Hc) as [[] | Hs]. split; [exact Hs|].
  pose proof (proj1 (List.Forall_forall _ _) (split_words s) w Hw) as Hword.
  apply word_inv in Hword as [_ Hall].
  exact (proj1 (List.Forall_forall _ _) Hall c Hc).
Qed.

Lemma filter_all {A} (f : A -> bool) (l : list A) :
  Forall (fun x => f x = true) l -> List.filter f l = l.
Proof. induction 1 as [|x l Hx _ IH]; simpl; [reflexivity|]. now rewrite Hx, IH. Qed.

Lemma split_on_aux_absent sep acc s :
  Forall (fun c => c <> sep) s -> split_on_aux sep acc s = [rev acc ++ s].
Proof.
  revert acc. induction s as [|c s IH]; intros acc Hs; simpl.
  - now rewrite app_nil_r.
  - apply List.Forall_cons_iff in Hs as [Hc Hs].
    destruct (N.eqb_spec c sep) as [-> | _]; [contradiction|].
    rewrite IH by assumption. simpl. now rewrite <- app_assoc.
Qed.

Lemma split_on_absent sep s :
  Forall (fun c => c <> sep) s -> split_on sep s = [s].
Proof. intros Hs. unfold split_on. now rewrite split_on_aux_absent. Qed.

(** A text without newline is one line: the third step of [clean_text]
    only trims it. *)
Lemma one_line_step s :
  Forall (fun c => c <> 10%N) s ->
  strip (join [10%N]
           (List.map strip
              (List.filter (fun line => truthy (strip line)) (split_on 10 s))))
  = strip s.
Proof.
  intros Hs. rewrite split_on_absent by assumption. simpl.
  destruct (truthy (strip s)) eqn:Hne; simpl.
  - apply stripped_strip, strip_stripped.
  - apply truthy_false in Hne. now rewrite Hne.
Qed.

Lemma trimmed_join_words (ws : list (list N)) :
  Forall word ws -> ws <> [] -> trimmed (join (u " ") ws).
Proof.
  induction 1 as [|w ws Hw Hws IH]; intros Hne; [contradiction|].
  assert (Htw : trimmed w).
  { apply word_inv in Hw as [Hwne Hall].
    destruct (head w) as [c|] eqn:Hh; [|now apply head_None in Hh].
    destruct (last w) as [d|] eqn:Hl; [|now apply last_None in Hl].
    apply (trimmed_intro w c d); trivial.
    - apply head_Some in Hh as [w' ->].
      now apply List.Forall_cons_iff in Hall as [Hc _].
    - apply last_Some in Hl as [w' ->].
      apply Forall_app in Hall as [_ Hall].
      now apply List.Forall_cons_iff in Hall as [Hd _]. }
  destruct ws as [|w2 ws]; [exact Htw|].
  change (join (u " ") (w :: w2 :: ws)) with (w ++ u " " ++ join (u " ") (w2 :: ws)).
  apply trimmed_app3; [exact Htw | apply IH; discriminate].
Qed.

Lemma stripped_join_split s : stripped (join (u " ") (split s)).
Proof.
  destruct (split s) as [|w ws] eqn:Hs; [now left|]. right.
  apply trimmed_join_words; [|discriminate].
  rewrite <- Hs. apply split_words.
Qed.

(** X11. The text returned by [clean_text] of the extractors is empty or has
    neither leading nor trailing whitespace; all its characters have a code
    of at least 32, so that no control character, newline or tab is left,
    and the space U+0020 is its only whitespace character. *)
Theorem extractor_clean_text_characters t :
  stripped (ExtractorText.clean_text t)
  /\ Forall (fun c => (32 <= c)%N /\ (isspace c = true -> c = SPACE))
            (ExtractorText.clean_text t).
Proof.
  unfold ExtractorText.clean_text.
  destruct (truthy t); simpl negb; cbv iota; [|split; [now left | constructor]].
  split; [apply strip_stripped|].
  set (filtered := List.filter _ (join (u " ") (split t))).
  assert (Hf : Forall (fun c => (32 <= c)%N /\ (isspace c = true -> c = SPACE))
                      filtered).
  { apply List.Forall_forall. intros c [Hj Hkeep] % filter_In.
    apply join_split_chars in Hj.
    assert (Hplain : isspace c = true -> c = SPACE).
    { destruct Hj as [-> | [_ Hc]]; [reflexivity | congruence]. }
    split; [|exact Hplain].
    apply orb_true_iff in Hkeep as [Hge | Hnt]; [now apply N.leb_le|].
    simpl in Hnt. rewrite orb_false_r in Hnt.
    apply orb_true_iff in Hnt as [->%N.eqb_eq | ->%N.eqb_eq];
      specialize (Hplain eq_refl); discriminate Hplain. }
  rewrite one_line_step.
  - destruct (strip_decomp filtered) as (t1 & t2 & E & _ & _).
    rewrite E in Hf. apply Forall_app in Hf as [_ Hf].
    now apply Forall_app in Hf as [Hf _].
  - eapply List.Forall_impl; [|exact Hf]. intros c [Hge _] ->. now apply Hge.
Qed.

(** On a text without control characters, [clean_text] of the extractors
    returns its words joined by single spaces. *)
Lemma extractor_clean_text_words t :
  Forall (fun c => controlb c = false) t ->
  ExtractorText.clean_text t = join (u " ") (split t).
Proof.
  intros Hctl. unfold ExtractorText.clean_text.
  destruct (truthy t) eqn:Htr; [|apply truthy_false in Htr; now subst].
  simpl negb. cbv iota.
  assert (Hall : Forall (fun c => (32 <=? c)%N
                                  || existsb (N.eqb c) [10%N; 9%N] = true)
                        (join (u " ") (split t))).
  { apply List.Forall_forall. intros c [-> | [Hin Hns]] % join_split_chars;
      [reflexivity|].
    pose proof (proj1 (List.Forall_forall _ _) Hctl c Hin) as Hc.
    unfold controlb in Hc. rewrite Hns, andb_true_r in Hc.
    apply N.ltb_ge in Hc. apply orb_true_iff. left. now apply N.leb_le. }
  rewrite (filter_all _ _ Hall). rewrite one_line_step.
  - apply stripped_strip, stripped_join_split.
  - apply List.Forall_forall. intros c Hj % join_split_chars Hc. subst c.
    destruct Hj as [E | [_ Hns]]; discriminate.
Qed.

(** X12. On a text without control characters (codes below 32 that are not
    whitespace), [clean_text] of the extractors returns the words of the
    text joined by single spaces, and cleaning the result again changes
    nothing. *)
Theorem extractor_clean_text_idempotent t :
  Forall (fun c => controlb c = false) t ->
  ExtractorText.clean_text t = join (u " ") (split t)
  /\ ExtractorText.clean_text (ExtractorText.clean_text t)
     = ExtractorText.clean_text t.
Proof.
  intros Hctl. pose proof (extractor_clean_text_words t Hctl) as Hw.
  split; [exact Hw|]. rewrite Hw.
  rewrite extractor_clean_text_words.
  - now rewrite split_join_words by apply split_words.
  - apply List.Forall_forall. intros c [-> | [Hin _]] % join_split_chars;
      [reflexivity|].
    exact (proj1 (List.Forall_forall _ _) Hctl c Hin).
Qed.

End ExtractorTextFacts.

(** ** [detect_sections] and [get_processing_stats] *)

Section SectionsAndStats.

Context `{UnicodeDB}.

Lemma in_if_single {A} (b : bool) (x y : A) :
  In y (if b then [x] else []) <-> b = true /\ y = x.
Proof.
  destruct b; simpl; split.
  - intros [<- | []]. now split.
  - intros [_ ->]. now left.
  - intros [].
  - intros [? _]. discriminate.
Qed.

Lemma detect_line_In i line j lab :
  In (j, lab) (detect_line i line) <->
  j = i /\ truthy (strip line) = true
  /\ (lab = u "section_header"
      /\ existsb (fun matches => matches (strip line)) section_matchers = true
      \/ lab = u "list_item" /\ re_match list_item_re (strip line) = true
      \/ lab = u "subsection"
         /\ (len (strip line) <? 100) && endswith_char 58 (strip line) = true).
Proof.
  unfold detect_line. destruct (truthy (strip line)); simpl negb; cbv iota.
  - rewrite !in_app_iff, !in_if_single. split.
    + intros [[Hb [= -> ->]] | [[Hb [= -> ->]] | [Hb [= -> ->]]]]; auto 6.
    + intros (-> & _ & [[-> Hb] | [[-> Hb] | [-> Hb]]]); auto.
  - simpl. split; [intros [] | intros (_ & ? & _); discriminate].
Qed.

Lemma enumerate_from_In {A} k (l : list A) i x :
  In (i, x) (enumerate_from k l) <->
  exists n : nat, l !! n = Some x /\ i = k + Z.of_nat n.
Proof.
  revert k. induction l as [|y l IH]; intros k; simpl.
  - split; [intros [] | intros (n & Hn & _); discriminate].
  - rewrite IH. split.
    + intros [[= <- <-] | (n & Hn & ->)].
      * exists 0%nat. split; [reflexivity | lia].
      * exists (S n). split; [exact Hn | lia].
    + intros ([|n] & Hn & ->).
      * left. injection Hn as ->. f_equal. lia.
      * right. exists n. split; [exact Hn | lia].
Qed.

(** The entries for the lines numbered from [k] on. *)
Lemma detect_from_In k (lines : list (list N)) j lab :
  In (j, lab) (flat_map (fun il => detect_line il.1 il.2) (enumerate_from k lines))
  <-> exists n : nat, j = k + Z.of_nat n
                      /\ exists line, lines !! n = Some line
                                      /\ In (j, lab) (detect_line j line).
Proof.
  rewrite in_flat_map. split.
  - intros ([i line] & Hil & Hin). simpl in Hin.
    apply enumerate_from_In in Hil as (n & Hn & ->).
    pose proof (proj1 (detect_line_In _ _ _ _) Hin) as (-> & _).
    exists n. split; [reflexivity | now exists line].
  - intros (n & -> & line & Hn & Hin). exists (k + Z.of_nat n, line).
    split; [|exact Hin]. apply enumerate_from_In. now exists n.
Qed.

Lemma detect_from_sorted k (lines : list (list N)) :
  forall (a b : nat) ea eb,
    flat_map (fun il => detect_line il.1 il.2) (enumerate_from k lines) !! a
    = Some ea ->
    flat_map (fun il => detect_line il.1 il.2) (enumerate_from k lines) !! b
    = Some eb ->
    (a <= b)%nat -> ea.1 <= eb.1.
Proof.
  revert k. induction lines as [|line lines IH]; intros k a b ea eb Ha Hb Hab;
    [discriminate Ha|].
  simpl in Ha, Hb.
  assert (Hhere : forall e, In e (detect_line k line) -> e.1 = k).
  { intros [j lab] He. now apply detect_line_In in He as (-> & _). }
  assert (Hlater : forall e,
             In e (flat_map (fun il => detect_line il.1 il.2)
                            (enumerate_from (k + 1) lines)) -> k + 1 <= e.1).
  { intros [j lab] He. apply detect_from_In in He as (n & -> & _). simpl. lia. }
  apply lookup_app_Some in Ha as [Ha1 | [Hla Ha2]];
    apply lookup_app_Some in Hb as [Hb1 | [Hlb Hb2]].
  - apply list_elem_of_lookup_2, list_elem_of_In, Hhere in Ha1.
    apply list_elem_of_lookup_2, list_elem_of_In, Hhere in Hb1. lia.
  - apply list_elem_of_lookup_2, list_elem_of_In, Hhere in Ha1.
    apply list_elem_of_lookup_2, list_elem_of_In, Hlater in Hb2. lia.
  - apply lookup_lt_Some in Hb1. lia.
  - apply (IH (k + 1) _ _ _ _ Ha2 Hb2). lia.
Qed.

(** X13. Every entry (i, label) returned by [detect_sections] points to a
    line of the text that is not blank, with [i] its index in
    [text.split('\n')], and carries one of the three labels; the entries
    come in the order of the lines. *)
Theorem detect_sections_entries self txt :
  (forall i lab,
      In (i, lab) (detect_sections self txt) ->
      exists line, 0 <= i /\ split_on 10 txt !! Z.to_nat i = Some line
                   /\ strip line <> []
                   /\ (lab = u "section_header" \/ lab = u "list_item"
                       \/ lab = u "subsection"))
  /\ (forall (a b : nat) ea eb,
         detect_sections self txt !! a = Some ea ->
         detect_sections self txt !! b = Some eb ->
         (a <= b)%nat -> ea.1 <= eb.1).
Proof.
  unfold detect_sections. split.
  - intros i lab (n & -> & line & Hn & Hin) % detect_from_In.
    apply detect_line_In in Hin as (_ & Htr & Hlab).
    exists line. split; [lia|]. rewrite Z.add_0_l, Nat2Z.id.
    split; [exact Hn|]. split; [now apply truthy_true|].
    destruct Hlab as [[-> _] | [[-> _] | [-> _]]]; auto.
  - apply detect_from_sorted.
Qed.

(** X14. [detect_sections] reports line [i] as a ['subsection'] exactly when
    the line, once trimmed, is not empty, has fewer than 100 characters and
    ends with a colon. *)
Theorem detect_sections_subsection self txt (n : nat) :
  In (Z.of_nat n, u "subsection") (detect_sections self txt) <->
  exists line, split_on 10 txt !! n = Some line
               /\ strip line <> [] /\ len (strip line) < 100
               /\ last (strip line) = Some 58%N.
Proof.
  unfold detect_sections. rewrite detect_from_In. split.
  - intros (m & Hm & line & Hline & Hin).
    assert (m = n) as -> by lia.
    apply detect_line_In in Hin as (_ & Htr & Hlab). exists line.
    split; [exact Hline|]. split; [now apply truthy_true|].
    destruct Hlab as [[Hl _] | [[Hl _] | [_ Hc]]];
      [vm_compute in Hl; discriminate Hl | vm_compute in Hl; discriminate Hl|].
    apply andb_true_iff in Hc as [Hlen Hend]. split; [now apply Z.ltb_lt|].
    unfold endswith_char in Hend. destruct (last (strip line)); [|discriminate].
    apply N.eqb_eq in Hend. now subst.
  - intros (line & Hline & Hne & Hlen & Hlast). exists n. split; [lia|].
    exists line. split; [exact Hline|]. apply detect_line_In.
    split; [reflexivity|]. split; [now apply truthy_true|]. right; right.
    split; [reflexivity|]. apply andb_true_iff. split; [now apply Z.ltb_lt|].
    unfold endswith_char. now rewrite Hlast.
Qed.

Lemma sum_from acc (l : list Z) : fold_left Z.add l acc = acc + PyStrMore.sum l.
Proof.
  unfold PyStrMore.sum. revert acc. induction l as [|x l IH]; intros acc; simpl.
  - lia.
  - rewrite (IH (acc + x)), (IH (0 + x)). lia.
Qed.

Lemma size_classes_partition (cs : list TextChunk) :
  len (List.filter (fun c => char_count c <? 200) cs)
  + len (List.filter (fun c => (200 <=? char_count c) && (char_count c <=? 400)) cs)
  + len (List.filter (fun c => char_count c >? 400) cs)
  = len cs.
Proof.
  unfold len. induction cs as [|c cs IH]; [reflexivity|]. simpl.
  rewrite Z.gtb_ltb.
  destruct (Z.ltb_spec (char_count c) 200); destruct (Z.leb_spec 200 (char_count c));
    destruct (Z.leb_spec (char_count c) 400);
    destruct (Z.ltb_spec 400 (char_count c)); simpl; lia.
Qed.

Lemma count_of_type_nonneg t cs : 0 <= count_of_type t cs.
Proof. apply len_nonneg. Qed.

Lemma count_of_type_cons t c cs :
  count_of_type t (c :: cs)
  = (if bool_decide (chunk_type c = t) then 1 else 0) + count_of_type t cs.
Proof.
  unfold count_of_type, len. cbn [List.filter].
  destruct (bool_decide (chunk_type c = t)); cbn [length]; lia.
Qed.

Lemma count_types_lookup (cs : list TextChunk) (m : gmap (list N) Z) t :
  fold_left count_type cs m !! t
  = if count_of_type t cs =? 0 then m !! t
    else Some (default 0 (m !! t) + count_of_type t cs).
Proof.
  revert m. induction cs as [|c cs IH]; intros m; [reflexivity|].
  cbn [fold_left]. rewrite IH, count_of_type_cons.
  pose proof (count_of_type_nonneg t cs) as Hn.
  set (n := count_of_type t cs) in *. clearbody n. unfold count_type.
  destruct (bool_decide_reflect (chunk_type c = t)) as [-> | Hne].
  - rewrite lookup_insert_eq. cbn [default]. unfold id.
    destruct (Z.eqb_spec n 0) as [E | E]; destruct (Z.eqb_spec (1 + n) 0);
      try lia; f_equal; lia.
  - rewrite lookup_insert_ne by exact Hne. reflexivity.
Qed.

(** X15. [get_processing_stats] returns the empty dict exactly for the
    empty list. Otherwise the three size classes (fewer than 200
    characters, 200 to 400, more than 400) share out all the chunks, and
    the average chunk size is the total of the character counts divided by
    the number of chunks, rounded down. *)
Theorem processing_stats_totals self cs :
  (get_processing_stats self cs = None <-> cs = [])
  /\ forall st, get_processing_stats self cs = Some st ->
       total_chunks st = len cs
       /\ size_small st + size_medium st + size_large st = total_chunks st
       /\ avg_chunk_size st * total_chunks st <= total_characters st
          < (avg_chunk_size st + 1) * total_chunks st.
Proof.
  unfold get_processing_stats. destruct cs as [|c cs].
  - split; [now split | discriminate].
  - split; [split; discriminate|]. cbn [truthy negb]. intros st [= <-].
    cbn [total_chunks size_small size_medium size_large avg_chunk_size
         total_characters].
    split; [reflexivity|]. split; [exact (size_classes_partition (c :: cs))|].
    assert (Hpos : 0 < len (c :: cs)) by (unfold len; simpl; lia).
    match goal with
    | |- context [?a / ?b] =>
        pose proof (Z.mul_div_le a b Hpos);
        pose proof (Z.mul_succ_div_gt a b Hpos)
    end.
    lia.
Qed.

(** X16. In the dict [chunk_types] of [get_processing_stats], a chunk type
    is a key exactly when some chunk has it, and its value is the number of
    chunks of that type. *)
Theorem processing_stats_types self cs st t :
  get_processing_stats self cs = Some st ->
  chunk_types st !! t
  = if count_of_type t cs =? 0 then None else Some (count_of_type t cs).
Proof.
  unfold get_processing_stats. destruct (truthy cs); [|discriminate].
  cbn [negb]. intros [= <-]. cbn [chunk_types].
  rewrite count_types_lookup, lookup_empty. reflexivity.
Qed.

End SectionsAndStats.

(** ** The embeddings generator *)

Section EmbeddingFacts.

Import Embeddings.

Context {V : Type}.

Lemma fill_valid (texts : list str) :
  forall (k : nat) (res : list (option V)) embs res',
    fill res (valid_indices_from k texts) embs = Some res' ->
    length res = (k + length texts)%nat ->
    (length (List.filter long_enough texts) <= length embs)%nat
    /\ length res' = length res
    /\ (forall i, (i < k)%nat -> res' !! i = res !! i)
    /\ (forall i t, texts !! i = Some t ->
          res' !! (k + i)%nat
          = if long_enough t
            then Some (embs !! length (List.filter long_enough (take i texts)))
            else res !! (k + i)%nat).
Proof.
  induction texts as [|t texts IH]; intros k res embs res' Hfill Hlen.
  - injection Hfill as <-. cbn [List.filter length]. split; [lia|].
    split; [reflexivity|]. split; [reflexivity|]. intros i t Hi. discriminate Hi.
  - cbn [valid_indices_from List.filter] in *. cbn [length] in Hlen.
    destruct (long_enough t) eqn:Ht.
    + cbn [fill] in Hfill. destruct embs as [|e embs]; [discriminate Hfill|].
      destruct (Nat.ltb_spec k (length res)) as [Hk | Hk]; [|lia].
      apply IH in Hfill as (Hcount & Hl & Hlow & Hrows);
        [|rewrite length_insert; lia].
      rewrite length_insert in Hl. cbn [length].
      split; [lia|]. split; [exact Hl|]. split.
      * intros i Hi. rewrite Hlow by lia. apply list_lookup_insert_ne. lia.
      * intros [|i] t' Hi.
        -- injection Hi as <-. rewrite Ht, Nat.add_0_r, Hlow by lia.
           rewrite list_lookup_insert_eq by lia. reflexivity.
        -- cbn [lookup list_lookup] in Hi.
           replace (k + S i)%nat with (S k + i)%nat by lia.
           rewrite (Hrows i t' Hi). cbn [take List.filter]. rewrite Ht.
           cbn [length lookup list_lookup].
           rewrite list_lookup_insert_ne by lia. reflexivity.
    + apply IH in Hfill as (Hcount & Hl & Hlow & Hrows); [|lia].
      split; [exact Hcount|]. split; [exact Hl|]. split.
      * intros i Hi. apply Hlow. lia.
      * intros [|i] t' Hi.
        -- injection Hi as <-. rewrite Ht, Nat.add_0_r. apply Hlow. lia.
        -- cbn [lookup list_lookup] in Hi.
           replace (k + S i)%nat with (S k + i)%nat by lia.
           rewrite (Hrows i t' Hi). cbn [take List.filter]. rewrite Ht.
           reflexivity.
Qed.

Lemma fill_enough (texts : list str) :
  forall (k : nat) (res : list (option V)) embs,
    length res = (k + length texts)%nat ->
    (length (List.filter long_enough texts) <= length embs)%nat ->
    is_Some (fill res (valid_indices_from k texts) embs).
Proof.
  induction texts as [|t texts IH]; intros k res embs Hlen Hrows.
  - now eexists.
  - cbn [valid_indices_from List.filter length] in *.
    destruct (long_enough t); [|apply IH; [lia | exact Hrows]].
    cbn [fill]. destruct embs as [|e embs]; [cbn [length] in Hrows; lia|].
    destruct (Nat.ltb_spec k (length res)) as [Hk | Hk]; [|lia].
    apply IH; [rewrite length_insert; lia | cbn [length] in Hrows; lia].
Qed.

Lemma no_valid_text (texts : list str) :
  List.filter long_enough texts = [] ->
  forall i t, texts !! i = Some t -> long_enough t = false.
Proof.
  intros Hnone i t Hi. destruct (long_enough t) eqn:Ht; [|reflexivity].
  assert (Hin : In t (List.filter long_enough texts)).
  { apply filter_In. split; [|exact Ht].
    apply list_elem_of_In. now apply list_elem_of_lookup_2 in Hi. }
  rewrite Hnone in Hin. destruct Hin.
Qed.

Lemma all_none_lookup (texts : list str) i t :
  texts !! i = Some t ->
  replicate (length texts) (@None V) !! i = Some None.
Proof.
  intros Hi. apply lookup_replicate_2. now apply lookup_lt_Some in Hi.
Qed.

(** The outcome of one call, whatever the model does. *)
Lemma generate_batch_cases (self : EmbeddingsGenerator V) elapsed_zero texts :
  let r := (generate_batch_embeddings self elapsed_zero texts).2 in
  r = replicate (length texts) None
  \/ exists encode embs,
       model self = Some encode
       /\ encode (List.map preprocess_text_for_embedding
                     (List.filter long_enough texts)) = Some embs
       /\ (length (List.filter long_enough texts) <= length embs)%nat
       /\ length r = length texts
       /\ forall i t,
            texts !! i = Some t ->
            r !! i
            = Some (if long_enough t
                    then embs !! length (List.filter long_enough (take i texts))
                    else None).
Proof.
  cbv zeta. unfold generate_batch_embeddings.
  destruct (model self) as [encode|]; [|now left].
  destruct texts as [|t0 texts']; [now left|]. cbn [truthy negb].
  set (texts := t0 :: texts').
  destruct (List.map _ (List.filter long_enough texts)) as [|c cl] eqn:Hclean;
    [now left|].
  cbn [truthy negb]. rewrite <- Hclean.
  destruct (encode _) as [embs|] eqn:Henc; [|now left].
  destruct (fill _ _ embs) as [res|] eqn:Hfill; [|now left].
  destruct (_ || elapsed_zero); [now left|]. right.
  apply fill_valid in Hfill as (Hcount & Hl & _ & Hrows);
    [|now rewrite length_replicate].
  rewrite length_replicate in Hl.
  exists encode, embs. cbn [snd].
  split; [reflexivity|]. split; [exact Henc|]. split; [exact Hcount|].
  split; [exact Hl|]. intros i t Hi. specialize (Hrows i t Hi).
  change (0 + i)%nat with i in Hrows. rewrite Hrows.
  destruct (long_enough t); [reflexivity|]. exact (all_none_lookup _ i t Hi).
Qed.

Lemma generate_batch_length (self : EmbeddingsGenerator V) elapsed_zero texts :
  length (generate_batch_embeddings self elapsed_zero texts).2 = length texts.
Proof.
  destruct (generate_batch_cases self elapsed_zero texts)
    as [-> | (_ & _ & _ & _ & _ & Hl & _)];
    [apply length_replicate | exact Hl].
Qed.

(** X17. [generate_batch_embeddings] returns one entry for each text, in
    every path. The entry of a text that fails the test
    [text and len(text.strip()) >= 3] is [None]. The call gives all or
    nothing: either every entry is [None], or every text that passes the
    test has an embedding. *)
Theorem batch_embeddings_shape (self : EmbeddingsGenerator V) elapsed_zero texts :
  let r := (generate_batch_embeddings self elapsed_zero texts).2 in
  length r = length texts
  /\ (forall i t, texts !! i = Some t -> long_enough t = false ->
         r !! i = Some None)
  /\ (r = replicate (length texts) None
      \/ forall i t, texts !! i = Some t -> long_enough t = true ->
            exists e, r !! i = Some (Some e)).
Proof.
  cbv zeta. split; [apply generate_batch_length|].
  destruct (generate_batch_cases self elapsed_zero texts)
    as [-> | (encode & embs & _ & _ & Hcount & _ & Hrows)].
  - split; [|now left]. intros i t Hi _. exact (all_none_lookup _ i t Hi).
  - split.
    + intros i t Hi Ht. now rewrite (Hrows i t Hi), Ht.
    + right. intros i t Hi Ht. rewrite (Hrows i t Hi), Ht.
      destruct (lookup_lt_is_Some_2 embs
                  (length (List.filter long_enough (take i texts)))) as [e He].
      * eapply Nat.lt_le_trans; [|exact Hcount].
        rewrite <- (take_drop_middle texts i t Hi) at 2.
        rewrite List.filter_app, length_app. cbn [List.filter]. rewrite Ht.
        cbn [length]. lia.
      * exists e. now rewrite He.
Qed.

(** X18. When the model is loaded and returns at least one row for each
    text that passes the test, the counter of embeddings does not come out
    at zero and the clock has moved, [generate_batch_embeddings] gives the
    k-th text that passes the test the k-th row of the model, leaves [None]
    for the others, and adds the number of texts that passed to the
    counter. *)
Theorem batch_embeddings_rows (self : EmbeddingsGenerator V) encode embs texts :
  model self = Some encode ->
  encode (List.map preprocess_text_for_embedding
            (List.filter long_enough texts)) = Some embs ->
  (length (List.filter long_enough texts) <= length embs)%nat ->
  0 <= total_embeddings_generated self ->
  let r := generate_batch_embeddings self false texts in
  (forall i t, texts !! i = Some t ->
     r.2 !! i
     = Some (if long_enough t
             then embs !! length (List.filter long_enough (take i texts))
             else None))
  /\ (texts <> [] ->
      total_embeddings_generated r.1
      = total_embeddings_generated self + len (List.filter long_enough texts)).
Proof.
  intros Hmodel Henc Hcount Hpos. cbv zeta. unfold generate_batch_embeddings.
  rewrite Hmodel. destruct texts as [|t0 texts'].
  { split; [intros i t Hi; discriminate Hi | intros Hne; now destruct Hne]. }
  cbn [truthy negb]. set (texts := t0 :: texts') in *.
  destruct (truthy (List.map _ (List.filter long_enough texts))) eqn:Htr.
  2: { apply truthy_false, map_eq_nil in Htr. cbn [negb snd fst]. split.
       - intros i t Hi. rewrite (no_valid_text texts Htr i t Hi).
         exact (all_none_lookup _ i t Hi).
       - intros _. rewrite Htr. unfold len. simpl. lia. }
  cbn [negb]. rewrite Henc.
  destruct (fill_enough texts 0 (replicate (length texts) None) embs)
    as [res Hfill]; [now rewrite length_replicate | exact Hcount|].
  rewrite Hfill.
  assert (Hlen : len (List.map preprocess_text_for_embedding
                        (List.filter long_enough texts))
                 = len (List.filter long_enough texts))
    by (unfold len; now rewrite length_map).
  assert (Hnz : 0 < len (List.filter long_enough texts)).
  { rewrite <- Hlen. apply truthy_true in Htr. unfold len.
    destruct (List.map _ _); [now destruct Htr | simpl; lia]. }
  rewrite Hlen.
  destruct (Z.eqb_spec (total_embeddings_generated self
                        + len (List.filter long_enough texts)) 0) as [E | _];
    [lia|].
  cbn [orb snd fst total_embeddings_generated]. split; [|reflexivity].
  apply fill_valid in Hfill as (_ & _ & _ & Hrows);
    [|now rewrite length_replicate].
  intros i t Hi. specialize (Hrows i t Hi). change (0 + i)%nat with i in Hrows.
  rewrite Hrows.
  destruct (long_enough t); [reflexivity|]. exact (all_none_lookup _ i t Hi).
Qed.

(** X19. [process_text_chunks] returns the chunks it was given, each one
    once and in the same order, paired with the entries of
    [generate_batch_embeddings] for their texts. *)
Theorem process_text_chunks_pairs (self : EmbeddingsGenerator V) elapsed_zero cs :
  let r := (process_text_chunks self elapsed_zero cs).2 in
  r.*1 = cs
  /\ r.*2 = (generate_batch_embeddings self elapsed_zero (List.map text cs)).2.
Proof.
  cbv zeta. unfold process_text_chunks.
  pose proof (generate_batch_length self elapsed_zero (List.map text cs)) as Hl.
  rewrite length_map in Hl.
  destruct cs as [|c cs]; cbn [truthy negb snd].
  - split; [reflexivity|]. symmetry. now apply nil_length_inv.
  - split; [apply fst_zip | apply snd_zip]; lia.
Qed.

End EmbeddingFacts.

Section PreprocessFacts.

Import Embeddings.

Lemma rfind_from_spec c (s : str) :
  forall i, 0 <= i ->
    (rfind_from c i s = -1 /\ Forall (fun x => x <> c) s)
    \/ exists n : nat,
         rfind_from c i s = i + Z.of_nat n
         /\ s !! n = Some c
         /\ Forall (fun x => x <> c) (drop (S n) s).
Proof.
  induction s as [|x s IH]; intros i Hi; [left; now split|].
  cbn [rfind_from]. cbv zeta.
  destruct (IH (i + 1) ltac:(lia)) as [[-> Hnone] | (n & -> & Hn & Hlater)].
  - change (-1 >=? 0) with false. cbv iota.
    destruct (N.eqb_spec x c) as [-> | Hx].
    + right. exists 0%nat. split; [lia|]. split; [reflexivity | exact Hnone].
    + left. split; [reflexivity | now constructor].
  - destruct (Z.geb_spec (i + 1 + Z.of_nat n) 0) as [_ | Hneg]; [|lia].
    right. exists (S n). split; [lia|]. split; [exact Hn | exact Hlater].
Qed.

(** X20. [preprocess_text_for_embedding] returns the trimmed text when it
    has at most 512 characters. A longer one is cut to its first 512
    characters, and then cut again before the last space of these when that
    space is at index 410 or later: the result has between 410 and 512
    characters, and what the second cut removes is that space and the
    letters after it. *)
Theorem preprocess_text_for_embedding_spec text :
  let cleaned := strip text in
  let out := preprocess_text_for_embedding text in
  (len cleaned <= 512 -> out = cleaned)
  /\ (512 < len cleaned ->
      (out = take 512 cleaned
       /\ Forall (fun c => c <> SPACE) (drop 410 (take 512 cleaned)))
      \/ exists w,
           take 512 cleaned = out ++ SPACE :: w
           /\ Forall (fun c => c <> SPACE) w
           /\ 410 <= len out).
Proof.
  cbv zeta. unfold preprocess_text_for_embedding.
  destruct text as [|c0 text']; [split; [reflexivity | unfold len; simpl; lia]|].
  cbn [truthy negb]. set (cleaned := strip (c0 :: text')).
  destruct (Z.gtb_spec (len cleaned) 512) as [Hlong | Hshort];
    [|split; [reflexivity | lia]].
  split; [lia|]. intros _. unfold slice_to, rfind.
  assert (Hlen : length (take 512 cleaned) = 512%nat)
    by (rewrite length_take; unfold len in Hlong; lia).
  set (window := take 512 cleaned) in *.
  destruct (rfind_from_spec SPACE window 0 ltac:(lia))
    as [[-> Hnone] | (n & -> & Hn & Hlater)].
  - left. split; [reflexivity|].
    rewrite <- (take_drop 410 window) in Hnone.
    now apply Forall_app in Hnone as [_ Hnone].
  - rewrite Z.add_0_l, Nat2Z.id.
    destruct (Z.gtb_spec (10 * Z.of_nat n) (8 * 512)) as [Hfar | Hnear].
    + right. exists (drop (S n) window).
      split; [symmetry; now apply take_drop_middle|]. split; [exact Hlater|].
      apply lookup_lt_Some in Hn. unfold len. rewrite length_take. lia.
    + left. split; [reflexivity|].
      replace 410%nat with (S n + (410 - S n))%nat by lia.
      rewrite <- drop_drop. now apply Forall_drop.
Qed.

End PreprocessFacts.

(** ** The classifier of the service-public extractor *)

Section FicheClassifier.

Context `{UnicodeDB}.

Import BaseExtractor ServicePublic.

Lemma max_from_split {A} (key : A -> Z) (xs : list A) :
  forall best,
    exists l1 l2,
      best :: xs = l1 ++ max_from key best xs :: l2
      /\ Forall (fun y => key y < key (max_from key best xs)) l1
      /\ Forall (fun y => key y <= key (max_from key best xs)) l2.
Proof.
  induction xs as [|x xs IH]; intros best.
  - exists [], []. repeat split; constructor.
  - cbn [max_from].
    destruct (IH (if key x >? key best then x else best))
      as (l1 & l2 & Hsplit & Hlt & Hle).
    set (r := max_from key _ xs) in *. clearbody r.
    destruct (Z.gtb_spec (key x) (key best)) as [Hgt | Hngt];
      destruct l1 as [|y l1]; injection Hsplit as Hhead Htail; subst.
    + exists [best], l2. split; [reflexivity|]. split; [|exact Hle].
      constructor; [lia | constructor].
    + exists (best :: y :: l1), l2. split; [reflexivity|]. split; [|exact Hle].
      apply List.Forall_cons_iff in Hlt as [Hy Hlt].
      constructor; [lia | now constructor].
    + exists [], (x :: l2). split; [reflexivity|]. split; [constructor|].
      constructor; [lia | exact Hle].
    + exists (y :: x :: l1), l2. split; [reflexivity|]. split; [|exact Hle].
      apply List.Forall_cons_iff in Hlt as [Hy Hlt].
      constructor; [exact Hy|]. constructor; [lia | exact Hlt].
Qed.

Lemma filter_eq_app_cons {A} (p : A -> bool) (l : list A) :
  forall f1 e f2,
    List.filter p l = f1 ++ e :: f2 ->
    exists l1 l2,
      l = l1 ++ e :: l2 /\ List.filter p l1 = f1 /\ List.filter p l2 = f2
      /\ p e = true.
Proof.
  induction l as [|a l IH]; intros f1 e f2 Hf; cbn [List.filter] in Hf.
  - now destruct f1.
  - destruct (p a) eqn:Ha.
    + destruct f1 as [|b f1]; injection Hf as -> Hf.
      * exists [], l. now repeat split.
      * apply IH in Hf as (l1 & l2 & -> & H1 & H2 & He).
        exists (b :: l1), l2. cbn [List.filter]. rewrite Ha, H1.
        now repeat split.
    + apply IH in Hf as (l1 & l2 & -> & H1 & H2 & He).
      exists (a :: l1), l2. cbn [List.filter]. rewrite Ha.
      now repeat split.
Qed.

Lemma item_In (d : list (str * (Z * str))) k v :
  List.NoDup (List.map fst d) -> In (k, v) d -> item d k = Some v.
Proof.
  induction d as [|[k' v'] d IH]; intros Hnd Hin; [destruct Hin|].
  cbn [List.map fst] in Hnd. apply List.NoDup_cons_iff in Hnd as [Hk' Hnd].
  cbn [item]. destruct Hin as [[= -> ->] | Hin].
  - now rewrite decide_True.
  - rewrite decide_False; [now apply IH|].
    intros ->. apply Hk'. apply in_map_iff. now exists (k, v).
Qed.

Lemma subcategories_NoDup : List.NoDup (List.map fst classification_keywords).
Proof.
  cbn [classification_keywords List.map fst].
  repeat (apply List.NoDup_cons;
          [vm_compute; intros Hk; repeat destruct Hk as [Hk | Hk];
           try discriminate Hk; contradiction|]).
  apply List.NoDup_nil.
Qed.

(** X21. [classify_fiche_domain] scores each subcategory of the table by the
    number of its keywords whose lower-cased form is a substring of the
    lower-cased text made of the title, one space and the first 1000
    characters of the content. When every score is zero it returns
    ('juridique', 'general'). Otherwise it returns the subcategory of the
    highest score, the first one in the order of the table when several
    reach it, together with the domain that the table gives to that
    subcategory. It never raises, and the URL plays no part. *)
Theorem classify_fiche_domain_spec title content url :
  let score := fiche_score (fiche_text_to_analyze title content) in
  (Forall (fun e => score e.2.1 = 0) classification_keywords
   /\ classify_fiche_domain title content url
      = Some (u "juridique", u "general"))
  \/ exists l1 sc kws d l2,
       classification_keywords = l1 ++ (sc, (kws, d)) :: l2
       /\ classify_fiche_domain title content url = Some (d, sc)
       /\ 0 < score kws
       /\ Forall (fun e => score e.2.1 < score kws) l1
       /\ Forall (fun e => score e.2.1 <= score kws) l2.
Proof.
  cbv zeta. unfold classify_fiche_domain, subcategory_scores.
  set (t := fiche_text_to_analyze title content).
  set (f := fun sc : str * (list str * str) =>
              (sc.1, (fiche_score t sc.2.1, sc.2.2))).
  set (p := fun e : str * (Z * str) => e.2.1 >? 0).
  set (table := classification_keywords).
  assert (Hnd : List.NoDup (List.map fst (List.filter p (List.map f table)))).
  { apply NoDup_map_fst_filter. rewrite List.map_map. exact subcategories_NoDup. }
  assert (Hscore : forall x, In x table -> p (f x) = true ->
            default 0 (fst <$> item (List.filter p (List.map f table)) x.1)
            = fiche_score t x.2.1).
  { intros x Hx Hp. rewrite (item_In _ x.1 (f x).2 Hnd); [reflexivity|].
    apply filter_In. split; [|exact Hp]. apply in_map_iff. now exists x. }
  clearbody table.
  destruct (List.filter p (List.map f table)) as [|e0 F'] eqn:HF.
  - left. cbn [truthy]. split; [|reflexivity].
    apply List.Forall_forall. intros x Hx.
    pose proof (len_nonneg (List.filter
                              (fun keyword => contains (lower keyword) t) x.2.1))
      as Hpos. fold (fiche_score t x.2.1) in Hpos.
    destruct (Z.gtb_spec (fiche_score t x.2.1) 0) as [Hgt | Hle]; [|lia].
    assert (Hin : In (f x) (List.filter p (List.map f table))).
    { apply filter_In. split; [apply in_map_iff; now exists x|].
      unfold p, f. cbn [fst snd]. now apply Z.gtb_lt. }
    rewrite HF in Hin. destruct Hin.
  - right. cbn [truthy]. rewrite <- HF in *.
    set (F := List.filter p (List.map f table)) in *.
    set (key := fun x : str => default 0 (fst <$> item F x)) in *.
    assert (HFmap : List.map fst F = e0.1 :: List.map fst F')
      by now rewrite HF.
    rewrite HFmap. cbn [py_max].
    destruct (max_from_split key (List.map fst F') e0.1)
      as (k1 & k2 & Hsplit & Hlt & Hle).
    set (r := max_from key e0.1 (List.map fst F')) in *. clearbody r.
    rewrite <- HFmap in Hsplit. clear HFmap HF e0 F'.
    apply map_eq_app in Hsplit as (F1 & F2' & HFs & <- & Hk2).
    apply map_eq_cons in Hk2 as ([r' [n d]] & F2 & -> & Hr & <-).
    cbn [fst] in Hr. subst r'.
    pose proof HFs as Hsplit. unfold F in Hsplit.
    apply filter_eq_app_cons in Hsplit as (S1 & S2 & HS & HF1 & HF2 & Hp).
    apply map_eq_app in HS as (T1 & T2' & -> & <- & HS2).
    apply map_eq_cons in HS2 as ([sc [kws d']] & T2 & -> & Hfe & <-).
    unfold f in Hfe at 1. cbn [fst snd] in Hfe. injection Hfe as -> <- ->.
    assert (Hitem : item F r = Some (fiche_score t kws, d)).
    { apply item_In; [exact Hnd|]. rewrite HFs. apply in_app_iff. right. now left. }
    assert (Hkey : key r = fiche_score t kws) by (unfold key; now rewrite Hitem).
    rewrite Hkey in Hlt, Hle.
    unfold p in Hp. cbn [fst snd] in Hp. apply Z.gtb_lt in Hp.
    exists T1, r, kws, d, T2. split; [reflexivity|]. rewrite Hitem.
    split; [reflexivity|]. split; [lia|].
    split; apply List.Forall_forall; intros x Hx.
    + destruct (p (f x)) eqn:Hpx.
      * rewrite <- (Hscore x); [|apply in_app_iff; now left | exact Hpx].
        rewrite List.Forall_forall in Hlt. apply Hlt.
        apply in_map_iff. exists (f x). split; [reflexivity|].
        rewrite <- HF1. apply filter_In. split; [|exact Hpx].
        apply in_map_iff. now exists x.
      * unfold p, f in Hpx. cbn [fst snd] in Hpx.
        destruct (Z.gtb_spec (fiche_score t x.2.1) 0); [discriminate Hpx | lia].
    + destruct (p (f x)) eqn:Hpx.
      * rewrite <- (Hscore x);
          [|apply in_app_iff; right; now right | exact Hpx].
        rewrite List.Forall_forall in Hle. apply Hle.
        apply in_map_iff. exists (f x). split; [reflexivity|].
        rewrite <- HF2. apply filter_In. split; [|exact Hpx].
        apply in_map_iff. now exists x.
      * unfold p, f in Hpx. cbn [fst snd] in Hpx.
        destruct (Z.gtb_spec (fiche_score t x.2.1) 0); [discriminate Hpx | lia].
Qed.

End FicheClassifier.

(** ** Punctuation in [TextProcessor.clean_text] *)

Section PunctuationFacts.

Context `{UnicodeDB}.

Lemma sub_punct_spaced s :
  forall skip prev a p b,
    Re.sub_aux (Re.Seq punct (Re.Star ws)) (fun m => first_char m ++ u " ")
               skip prev s = a ++ p :: b ->
    In p (u ",.!?;:") -> exists b', b = SPACE :: b'.
Proof.
  induction s as [|c s IH]; intros skip prev a p b Hout Hp;
    [now destruct a|].
  destruct skip as [|k]; cbn [Re.sub_aux] in Hout; [|now apply IH in Hout].
  destruct (existsb (N.eqb c) (u ",.!?;:")) eqn:Hc.
  - assert (Hmt : exists m rest tl,
               Re.mt (Re.Seq punct (Re.Star ws)) prev (c :: s)
               = (c :: m, rest) :: tl).
    { unfold punct, Re.OneOf. cbn [Re.mt flat_map]. rewrite Hc.
      cbn [flat_map fst snd]. rewrite app_nil_r.
      destruct (Re.mt (Re.Star ws) (Re.last_of prev [c]) s)
        as [|[m rest] tl] eqn:Hstar; [now apply mt_star_nonempty in Hstar|].
      now exists m, rest, (List.map (Re.glue [c]) tl). }
    destruct Hmt as (m & rest & tl & Hmt). rewrite Hmt in Hout.
    cbn [first_char app] in Hout. change (u " ") with [SPACE] in Hout.
    cbn [app] in Hout.
    destruct a as [|x [|y a]]; cbn [app] in Hout.
    + injection Hout as _ <-. now eexists.
    + injection Hout as _ <- _. vm_compute in Hp.
      repeat destruct Hp as [Hp | Hp]; try discriminate Hp; contradiction.
    + injection Hout as _ _ Hout. now apply IH in Hout.
  - assert (Hmt : Re.mt (Re.Seq punct (Re.Star ws)) prev (c :: s) = [])
      by (unfold punct, Re.OneOf; cbn [Re.mt flat_map]; now rewrite Hc).
    rewrite Hmt in Hout. destruct a as [|x a]; injection Hout as Hx Hout.
    + subst p. exfalso.
      assert (Hin : existsb (N.eqb c) (u ",.!?;:") = true).
      { apply existsb_exists. exists c. split; [exact Hp | apply N.eqb_refl]. }
      congruence.
    + now apply IH in Hout.
Qed.

(** X22. In the text returned by [clean_text], each of the punctuation
    marks [,.!?;:] is followed by a space, unless it is the last
    character. *)
Theorem clean_text_punctuation t : punctuation_spaced (clean_text t).
Proof.
  unfold clean_text. destruct (truthy t); cbn [negb];
    [|intros a p b Hnil; now destruct a].
  set (out := Re.sub (Re.Seq punct (Re.Star ws)) _ _).
  intros a p b Hs Hp.
  destruct (strip_decomp out) as (t1 & t2 & Hout & _ & _).
  rewrite Hs in Hout. unfold out, Re.sub in Hout.
  replace (t1 ++ (a ++ p :: b) ++ t2) with ((t1 ++ a) ++ p :: (b ++ t2)) in Hout
    by (now rewrite <- !app_assoc).
  destruct (sub_punct_spaced _ _ _ _ _ _ Hout Hp) as [b' Hb].
  destruct b as [|x b]; [now left|]. right. injection Hb as -> _. now eexists.
Qed.

End PunctuationFacts.

(** ** List items in [detect_sections] *)

Section ListItemFacts.

Context `{UnicodeDB}.

Lemma mt_star_ws_none prev c s :
  isspace c = false -> Re.mt (Re.Star ws) prev (c :: s) = [([], c :: s)].
Proof.
  intros Hc. unfold Re.Star, ws. cbn [Re.mt length flat_map]. now rewrite Hc.
Qed.

Lemma mt_plus_ws_none prev s :
  match s with d :: _ => isspace d = false | [] => True end ->
  Re.mt (Re.Plus ws) prev s = [].
Proof.
  intros Hs. unfold Re.Plus, ws. destruct s as [|d s]; [reflexivity|].
  cbn [Re.mt length flat_map]. now rewrite Hs.
Qed.

(** On a line without leading whitespace, the pattern of the list items
    matches when the line starts with one of [-•*] and a whitespace
    character follows. *)
Lemma list_item_match l :
  trimmed l ->
  re_match list_item_re l = true
  <-> exists c d rest, l = c :: d :: rest /\ In c (u "-•*") /\ isspace d = true.
Proof.
  intros (c & e & Hhead & _ & Hc & _) % trimmed_inv.
  destruct l as [|c' l]; [discriminate Hhead|]. injection Hhead as ->.
  unfold re_match, list_item_re.
  assert (E : Re.mt (Re.Seq (Re.Star ws)
                        (Re.Seq (Re.OneOf (u "-•*")) (Re.Plus ws))) None (c :: l)
              = if existsb (N.eqb c) (u "-•*")
                then List.map (Re.glue []) (List.map (Re.glue [c])
                                 (Re.mt (Re.Plus ws) (Some c) l))
                else []).
  { change (Re.mt (Re.Seq ?r1 ?r2) None (c :: l))
      with (flat_map (fun m1 => List.map (Re.glue m1.1)
                                  (Re.mt r2 (Re.last_of None m1.1) m1.2))
                     (Re.mt r1 None (c :: l))).
    rewrite (mt_star_ws_none None c l Hc). cbn [flat_map fst snd].
    rewrite app_nil_r. unfold Re.OneOf at 1.
    change (Re.mt (Re.Seq (Re.Cls ?q) ?r2) ?pv (c :: l))
      with (flat_map (fun m1 => List.map (Re.glue m1.1)
                                  (Re.mt r2 (Re.last_of pv m1.1) m1.2))
                     (if q c then [([c], l)] else [])).
    destruct (existsb (N.eqb c) (u "-•*")); [|reflexivity].
    cbn [flat_map fst snd]. now rewrite app_nil_r. }
  rewrite E. clear E. split.
  - destruct (existsb (N.eqb c) (u "-•*")) eqn:Hb; [|discriminate].
    destruct l as [|d rest]; [now rewrite mt_plus_ws_none|].
    destruct (isspace d) eqn:Hd; [|now rewrite mt_plus_ws_none]. intros _.
    exists c, d, rest. split; [reflexivity|]. split; [|exact Hd].
    apply existsb_exists in Hb as (x & Hx & Hcx). apply N.eqb_eq in Hcx.
    now subst.
  - intros (c0 & d & rest & [= <- ->] & Hin & Hd).
    assert (Hb : existsb (N.eqb c) (u "-•*") = true).
    { apply existsb_exists. exists c. split; [exact Hin | apply N.eqb_refl]. }
    rewrite Hb.
    destruct (mt_plus_ws_at_space (Some c) d rest Hd) as (m & r & tl & Hmt).
    unfold ws. now rewrite Hmt.
Qed.

(** X23. [detect_sections] reports line [i] as a ['list_item'] exactly when
    the line, once trimmed, starts with one of the characters [-], [•]
    and [*] followed by a whitespace character. *)
Theorem detect_sections_list_item self txt (n : nat) :
  In (Z.of_nat n, u "list_item") (detect_sections self txt) <->
  exists line c d rest,
    split_on 10 txt !! n = Some line
    /\ strip line = c :: d :: rest /\ In c (u "-•*") /\ isspace d = true.
Proof.
  unfold detect_sections. rewrite detect_from_In. split.
  - intros (m & Hm & line & Hline & Hin).
    assert (m = n) as -> by lia.
    apply detect_line_In in Hin as (_ & Htr & Hlab).
    destruct Hlab as [[Hl _] | [[_ Hmatch] | [Hl _]]];
      [vm_compute in Hl; discriminate Hl | | vm_compute in Hl; discriminate Hl].
    apply list_item_match in Hmatch as (c & d & rest & Hs & Hc & Hd);
      [|now apply strip_is_trimmed].
    now exists line, c, d, rest.
  - intros (line & c & d & rest & Hline & Hs & Hc & Hd). exists n.
    split; [lia|]. exists line. split; [exact Hline|]. apply detect_line_In.
    assert (Htr : truthy (strip line) = true) by now rewrite Hs.
    split; [reflexivity|]. split; [exact Htr|]. right; left.
    split; [reflexivity|]. apply list_item_match; [now apply strip_is_trimmed|].
    now exists c, d, rest.
Qed.

End ListItemFacts.

(** ** The statistics of a processed document *)

Section PipelineStats.

Context `{UnicodeDB}.

Lemma count_of_type_app t cs1 cs2 :
  count_of_type t (cs1 ++ cs2) = count_of_type t cs1 + count_of_type t cs2.
Proof. unfold count_of_type. now rewrite List.filter_app, len_app. Qed.

Lemma count_of_type_other t t' cs :
  t <> t' -> Forall (fun c => chunk_type c = t') cs -> count_of_type t cs = 0.
Proof.
  intros Hne Hcs. induction Hcs as [|c cs Hc _ IH]; [reflexivity|].
  rewrite count_of_type_cons, IH, bool_decide_false; [reflexivity | congruence].
Qed.

(** X24. In the statistics of the chunks that [process_document] returns,
    the key ['title'] of [chunk_types] is there exactly when the title is
    not empty and has more than 10 characters once trimmed, and then counts
    one chunk; ['title'] and ['content'] are the only keys. *)
Theorem document_stats_types self title content metadata out st :
  process_document self title content metadata = Some out ->
  get_processing_stats self out = Some st ->
  chunk_types st !! u "title"
  = (if truthy title && (len (strip title) >? 10) then Some 1 else None)
  /\ forall t, t <> u "title" -> t <> u "content" -> chunk_types st !! t = None.
Proof.
  intros Hout. unfold get_processing_stats.
  destruct (truthy out) eqn:Htr; [|discriminate].
  cbn [negb]. intros [= <-]. cbn [chunk_types].
  destruct (process_document_shape self title content metadata out Hout)
    as [[_ Hnil] | [Hlong _]]; [rewrite Hnil in Htr; discriminate Htr|].
  destruct (process_document_contents self title content metadata out Hout Hlong)
    as (cs & -> & Hcontent).
  clear Hout Htr.
  set (md := match metadata with Some m => m | None => ∅ end) in *.
  split; [|intros t Ht Hc]; rewrite count_types_lookup, lookup_empty,
                               count_of_type_app.
  - rewrite (count_of_type_other _ (u "content") cs); [|key_neq | exact Hcontent].
    destruct (truthy title && (len (strip title) >? 10)); reflexivity.
  - rewrite (count_of_type_other _ (u "content") cs); [|exact Hc | exact Hcontent].
    destruct (truthy title && (len (strip title) >? 10)); [|reflexivity].
    rewrite count_of_type_cons, bool_decide_false; [reflexivity|].
    cbn [title_chunk TextChunk_new chunk_type]. congruence.
Qed.

End PipelineStats.

(** ** The further properties on sample inputs *)

Module OnMoreSamples.

Import Latin1 Sample MoreSamples.

(** X1 on two sentences, of which the second stays in the buffer. *)
Lemma chunk_count_bound_witness :
  exists cs,
    create_chunks_with_overlap processor150 [sentence126; sentence84] = Some cs
    /\ (length cs <= 2)%nat.
Proof.
  eexists. split; [vm_compute; reflexivity|].
  apply (chunk_count_bound processor150 [sentence126; sentence84]).
  vm_compute. reflexivity.
Defined.

(** X2 on one sentence of 114 characters and [chunk_size] 300. *)
Lemma chunk_length_bound_witness :
  0 <= chunk_size default_processor
  /\ Forall (fun s => len s <= chunk_size default_processor) [sentence114]
  /\ create_chunks_with_overlap default_processor [sentence114]
     = Some [the_final_chunk default_processor sentence114 0]
  /\ len (text (the_final_chunk default_processor sentence114 0))
     <= 2 * chunk_size default_processor + 1.
Proof.
  assert (H0 : 0 <= chunk_size default_processor) by (vm_compute; discriminate).
  assert (Hss : Forall (fun s => len s <= chunk_size default_processor)
                       [sentence114])
    by (repeat constructor; vm_compute; discriminate).
  assert (Hout : create_chunks_with_overlap default_processor [sentence114]
                 = Some [the_final_chunk default_processor sentence114 0])
    by (vm_compute; reflexivity).
  split; [exact H0|]. split; [exact Hss|]. split; [exact Hout|].
  exact (chunk_length_bound default_processor [sentence114] _ _ H0 Hss Hout
           (or_introl eq_refl)).
Defined.

(** X3: with [overlap] 50, a buffer of 20 words leaves its last 5 words. *)
Lemma carry_is_trailing_words_witness :
  10 < len (split sentence126)
  /\ 10 <= overlap default_processor < 10 * 2 ^ 50
  /\ next_overlap default_processor sentence126
     = Some (u "par le code du travail").
Proof.
  assert (Hw : 10 < len (split sentence126)) by (vm_compute; reflexivity).
  assert (Ho : 10 <= overlap default_processor < 10 * 2 ^ 50)
    by (split; [vm_compute; discriminate | vm_compute; reflexivity]).
  split; [exact Hw|]. split; [exact Ho|].
  rewrite (proj2 (carry_is_trailing_words default_processor sentence126) Hw Ho).
  vm_compute. reflexivity.
Defined.

(** X4: with [overlap] 0, the buffer of 126 characters is carried whole. *)
Lemma small_overlap_carries_whole_buffer_witness :
  exists st,
    asm_loop processor_no_overlap [sentence126] = Some st
    /\ -10 < overlap processor_no_overlap < 10
    /\ truthy (current_chunk st) = true
    /\ chunk_size processor_no_overlap
       < len (current_chunk st ++ u " " ++ sentence84)
    /\ 10 < len (split (current_chunk st))
    /\ exists st',
         asm_step processor_no_overlap st sentence84 = Some st'
         /\ overlap_buffer st' = join (u " ") (split (current_chunk st)).
Proof.
  eexists. split; [vm_compute; reflexivity|].
  match goal with |- _ /\ truthy (current_chunk ?st0) = true /\ _ =>
    set (st := st0)
  end.
  assert (Ho : -10 < overlap processor_no_overlap < 10)
    by (split; vm_compute; reflexivity).
  assert (Hc : truthy (current_chunk st) = true) by reflexivity.
  assert (Hl : chunk_size processor_no_overlap
               < len (current_chunk st ++ u " " ++ sentence84))
    by (vm_compute; reflexivity).
  assert (Hw : 10 < len (split (current_chunk st))) by (vm_compute; reflexivity).
  split; [exact Ho|]. split; [exact Hc|]. split; [exact Hl|]. split; [exact Hw|].
  exact (small_overlap_carries_whole_buffer processor_no_overlap st sentence84
           Ho Hc Hl Hw).
Defined.

(** X6 on a content of 11 characters. *)
Lemma short_content_gives_nothing_witness :
  2 * len short_content < min_chunk_size default_processor
  /\ process_document default_processor padded_title short_content None = Some [].
Proof.
  assert (Hs : 2 * len short_content < min_chunk_size default_processor)
    by (vm_compute; reflexivity).
  split; [exact Hs|].
  exact (proj2 (short_content_gives_nothing default_processor padded_title
                  short_content None Hs)).
Defined.

(** X7 on the title chunk of a document. *)
Lemma chunks_are_well_formed_witness :
  1 <= min_chunk_size default_processor
  /\ process_document default_processor padded_title document None
     = Some document_chunks
  /\ In (title_chunk padded_title ∅) document_chunks
  /\ trimmed (text (title_chunk padded_title ∅))
  /\ keywords (title_chunk padded_title ∅) <> [].
Proof.
  assert (Hm : 1 <= min_chunk_size default_processor)
    by (vm_compute; discriminate).
  assert (Hout : process_document default_processor padded_title document None
                 = Some document_chunks) by (vm_compute; reflexivity).
  assert (Hin : In (title_chunk padded_title ∅) document_chunks)
    by (left; reflexivity).
  split; [exact Hm|]. split; [exact Hout|]. split; [exact Hin|].
  destruct (chunks_are_well_formed default_processor padded_title document None
              _ _ Hm Hout Hin) as (Ht & Hk & _).
  split; [exact Ht | exact Hk].
Defined.

(** X8 on the content chunk of a document. *)
Lemma content_chunks_reach_floor_witness :
  process_document default_processor padded_title document (Some caller_metadata)
  = Some merged_chunks
  /\ In merged_chunk merged_chunks
  /\ chunk_type merged_chunk = u "content"
  /\ min_chunk_size default_processor <= char_count merged_chunk.
Proof.
  assert (Hout : process_document default_processor padded_title document
                   (Some caller_metadata) = Some merged_chunks)
    by (vm_compute; reflexivity).
  assert (Hin : In merged_chunk merged_chunks) by (right; left; reflexivity).
  assert (Hty : chunk_type merged_chunk = u "content") by reflexivity.
  split; [exact Hout|]. split; [exact Hin|]. split; [exact Hty|].
  exact (proj1 (content_chunks_reach_floor default_processor padded_title
                  document (Some caller_metadata) merged_chunks merged_chunk
                  Hout Hin Hty)).
Defined.

(** X9 on the first sentence of a document. *)
Lemma sentences_are_trimmed_witness :
  In first_sentence (smart_split_sentences default_processor document)
  /\ trimmed first_sentence.
Proof.
  assert (Hin : In first_sentence
                   (smart_split_sentences default_processor document))
    by (vm_compute; left; reflexivity).
  split; [exact Hin|].
  exact (sentences_are_trimmed default_processor document first_sentence Hin).
Defined.

(** X10: the title ['  Code du travail  '], once cleaned by the extractor,
    gives a title chunk whose [char_count] is the length of its text. *)
Lemma extracted_title_counts_witness :
  process_document default_processor (ExtractorText.clean_text padded_title)
    document None = Some clean_document_chunks
  /\ In clean_title_chunk clean_document_chunks
  /\ char_count clean_title_chunk = len (text clean_title_chunk).
Proof.
  assert (Hout : process_document default_processor
                   (ExtractorText.clean_text padded_title) document None
                 = Some clean_document_chunks) by (vm_compute; reflexivity).
  assert (Hin : In clean_title_chunk clean_document_chunks)
    by (left; reflexivity).
  split; [exact Hout|]. split; [exact Hin|].
  exact (proj1 (extracted_title_counts default_processor padded_title document
                  None clean_document_chunks clean_title_chunk Hout Hin)).
Defined.

(** X12 on a title with doubled spaces. *)
Lemma extractor_clean_text_idempotent_witness :
  Forall (fun c => controlb c = false) spaced_title
  /\ ExtractorText.clean_text spaced_title = u "Code du travail"
  /\ ExtractorText.clean_text (ExtractorText.clean_text spaced_title)
     = ExtractorText.clean_text spaced_title.
Proof.
  assert (Hall : forallb (fun c => negb (controlb c)) spaced_title = true)
    by (vm_compute; reflexivity).
  assert (Hc : Forall (fun c => controlb c = false) spaced_title).
  { apply List.Forall_forall. intros c Hin.
    apply negb_true_iff. revert c Hin. now apply forallb_forall. }
  split; [exact Hc|].
  destruct (extractor_clean_text_idempotent spaced_title Hc) as [Hw Hi].
  split; [rewrite Hw; vm_compute; reflexivity | exact Hi].
Defined.

(** X16 on the chunks of a document: one title chunk, one content chunk. *)
Lemma processing_stats_types_witness :
  match get_processing_stats default_processor
          [title_chunk padded_title ∅; merged_chunk] with
  | Some st => chunk_types st !! u "content" = Some 1
               /\ chunk_types st !! u "list" = None
  | None => False
  end.
Proof.
  destruct (get_processing_stats default_processor
              [title_chunk padded_title ∅; merged_chunk]) as [st|] eqn:Hst;
    [|discriminate Hst].
  split.
  - rewrite (processing_stats_types default_processor _ st (u "content") Hst).
    vm_compute. reflexivity.
  - rewrite (processing_stats_types default_processor _ st (u "list") Hst).
    vm_compute. reflexivity.
Defined.

(** X18 on three texts, the second too short for an embedding. *)
Lemma batch_embeddings_rows_witness :
  Embeddings.model generator = Some length_model
  /\ length_model (List.map Embeddings.preprocess_text_for_embedding
                     (List.filter Embeddings.long_enough batch)) = Some [7; 59]
  /\ (length (List.filter Embeddings.long_enough batch) <= length [7; 59])%nat
  /\ 0 <= Embeddings.total_embeddings_generated generator
  /\ (Embeddings.generate_batch_embeddings generator false batch).2
     = [Some 7; None; Some 59]
  /\ Embeddings.total_embeddings_generated
       (Embeddings.generate_batch_embeddings generator false batch).1 = 2.
Proof.
  assert (Hm : Embeddings.model generator = Some length_model) by reflexivity.
  assert (He : length_model (List.map Embeddings.preprocess_text_for_embedding
                               (List.filter Embeddings.long_enough batch))
               = Some [7; 59]) by (vm_compute; reflexivity).
  assert (Hn : (length (List.filter Embeddings.long_enough batch)
                <= length [7; 59])%nat) by (vm_compute; lia).
  assert (Hp : 0 <= Embeddings.total_embeddings_generated generator)
    by (vm_compute; discriminate).
  split; [exact Hm|]. split; [exact He|]. split; [exact Hn|]. split; [exact Hp|].
  destruct (batch_embeddings_rows generator length_model [7; 59] batch
              Hm He Hn Hp) as [Hrows Htotal].
  split; [|rewrite Htotal by discriminate; vm_compute; reflexivity].
  apply list_eq. intros [|[|[|i]]].
  - rewrite (Hrows 0%nat _ eq_refl). vm_compute. reflexivity.
  - rewrite (Hrows 1%nat _ eq_refl). vm_compute. reflexivity.
  - rewrite (Hrows 2%nat _ eq_refl). vm_compute. reflexivity.
  - vm_compute. reflexivity.
Defined.

(** X20 on a text of 659 characters, cut before the last space of its
    first 512 characters. *)
Lemma preprocess_text_for_embedding_witness :
  512 < len (strip long_text)
  /\ 410 <= len (Embeddings.preprocess_text_for_embedding long_text) <= 512.
Proof.
  assert (Hl : 512 < len (strip long_text)) by (vm_compute; reflexivity).
  split; [exact Hl|].
  assert (Hwin : len (take 512 (strip long_text)) = 512)
    by (vm_compute; reflexivity).
  destruct (proj2 (preprocess_text_for_embedding_spec long_text) Hl)
    as [[Hout _] | (w & Hsplit & _ & Hlen)].
  - rewrite Hout, Hwin. lia.
  - split; [exact Hlen|]. rewrite Hsplit, len_app in Hwin.
    pose proof (len_nonneg (SPACE :: w)). lia.
Defined.

(** X24 on a document with a title of 15 characters. *)
Lemma document_stats_types_witness :
  process_document default_processor padded_title document None
  = Some document_chunks
  /\ match get_processing_stats default_processor document_chunks with
     | Some st => chunk_types st !! u "title" = Some 1
                  /\ chunk_types st !! u "list" = None
     | None => False
     end.
Proof.
  assert (Hout : process_document default_processor padded_title document None
                 = Some document_chunks) by (vm_compute; reflexivity).
  split; [exact Hout|].
  destruct (get_processing_stats default_processor document_chunks)
    as [st|] eqn:Hst; [|discriminate Hst].
  destruct (document_stats_types default_processor padded_title document None
              document_chunks st Hout Hst) as [Htitle Hother].
  split; [rewrite Htitle; vm_compute; reflexivity|].
  apply Hother; intros E; vm_compute in E; discriminate E.
Defined.

End OnMoreSamples.
